(** * Eve runtime: the evaluation core ([src/runtime/runtime.ts])

    A shallow embedding of [Database] and [Evaluation] and the properties of
    the fixpoint driver, the block activation scan and the evaluation queue.

    Objects of the JavaScript heap that are shared and mutated (databases,
    evaluations) live in a store, [World], and are referred to by address.
    Collaborators whose code is in other modules of the runtime (the change
    set, the indexes, blocks, actions) are taken through the interface
    [Collaborators] and through the function fields of [Block] and [Action];
    they are total functions: a collaborator that throws or does not return
    is outside the embedding, and so is a callback that calls back into the
    evaluation. Objects used as maps ([nameToDatabase], [waitingFor],
    [tagsCache]) are finite maps over their own keys; the keys every object
    inherits from [Object.prototype] are left out. The performance tracker
    only measures time and is left out. *)

From stdpp Require Import gmap strings list fin_maps pretty.
From Stdlib Require Import ZArith Lia.

Open Scope Z_scope.

(** [const MAX_ROUNDS = 300;] *)
Definition MAX_ROUNDS : Z := 300.

(** ** Collaborators *)

(** What [runtime.ts] imports from [./changes] and [./indexes].

    - [Value] is a slot of a commit array ([any]); [undefined] is what an
      array read past the end gives and [propertyKey] the string a value
      becomes when it is used as an object key ([tagsCache[e]]).
    - [Store] is the content of all triple indexes, [Staged] the pending
      entries of a change set, [Tags] the result of the tag merge lookup
      (always an array, never [undefined]).
    - [commitStaged], [mergeStaged] give the new [changed] flag and pending
      entries of [Changes.commit] and [Changes.mergeRound]. *)
Class Collaborators := {
  Value : Type;
  undefined : Value;
  propertyKey : Value -> string;
  Tags : Type;
  Store : Type;
  Staged : Type;
  emptyStaged : Staged;
  dangerousMergeLookup : gmap string string -> Store -> Value -> Tags;
  commitStaged : Store -> Z -> bool -> Staged -> Store * (bool * Staged) * list Value;
  mergeStaged : Z -> bool -> Staged -> Z -> bool -> Staged -> bool * Staged;
  toCommitted : Z -> bool -> Staged -> string -> list Value
}.

Inductive Error :=
| TypeError (msg : string)
| JsError (msg : string).

Inductive QueuedType := Qcommit | Qactions | Qchanges.

Section Runtime.
Context `{Collaborators}.

(** ** Data *)

(** A change set, as far as the driver reads and writes it. *)
Record Changes := mkChanges {
  round : Z;
  changed : bool;
  staged : Staged
}.

(** The multi-index as the collaborators see it: the names registered in
    the evaluation and the triples. *)
Definition IndexView : Type := gmap string string * Store.

(** Blocks and actions stage into the change set: they give the new
    [changed] flag and pending entries and leave [round] alone. *)
Record Block := mkBlock {
  blk_id : string;
  dormant : bool;
  isRemote : bool;      (* block instanceof RemoteBlock *)
  check : IndexView -> Value -> Tags -> Value -> Value -> Value -> bool;
  blk_execute : IndexView -> Changes -> bool * Staged
}.

Record Action := mkAction {
  act_execute : IndexView -> Changes -> bool * Staged
}.

(** Modelled from the spec: what a collaborator does to a change set
    ([./changes], [./block] and [./actions] are not among the sources). It
    gives the [changed] flag and the pending entries; [round] is moved by
    [nextRound] only. *)
Definition withBody (c : Changes) (b : bool * Staged) : Changes :=
  mkChanges (round c) (fst b) (snd b).

(** Modelled from the spec: [Changes.nextRound] ([./changes] is not among
    the sources): it increments [round] and clears [changed]. *)
Definition nextRound (c : Changes) : Changes :=
  mkChanges (round c + 1) false (staged c).

(** Modelled from the spec: [new Changes(index)] has [round] 0 and nothing
    staged. *)
Definition newChanges : Changes := mkChanges 0 false emptyStaged.

(** Callbacks. [CbUser] is a callback of the embedding program, opaque
    here: calling it is recorded in the log. [CbFinished] is the closure
    [finished] that [processQueue] builds around the item's own callback. *)
Inductive Callback :=
| CbUser (k : nat)
| CbFinished (inner : option nat).

(** [interface QueuedEvaluation]: every field but [type] is optional.
    [waitingCount = None] stands for a value that is not a number
    ([undefined], or the [NaN] that [undefined--] gives). *)
Record QueuedEvaluation := mkQueued {
  q_type : QueuedType;
  q_commit : option (list Value);
  actions : option (list Action);
  changes : option Changes;
  callback : option Callback;
  waitingFor : option (gmap string bool);
  waitingCount : option Z
}.

Record Database := mkDatabase {
  db_id : string;
  blocks : list Block;
  evaluations : list nat;      (* addresses of evaluations *)
  nonExecuting : bool          (* [undefined] reads as [false] *)
}.

Record Evaluation := mkEvaluation {
  queued : bool;
  currentEvaluation : option QueuedEvaluation;
  evaluationQueue : list QueuedEvaluation;
  multiIndex : gmap string string;     (* name -> id of the database whose index it is *)
  databases : list nat;                (* addresses of databases *)
  errorReporter : option nat;
  databaseNames : gmap string string;  (* db.id -> name *)
  nameToDatabase : gmap string nat;    (* name -> address *)
  ticks : nat                          (* [processQueue] callbacks handed to [nextTick] *)
}.

(** What the runtime does to the outside ([Reported], [ConsoleError],
    [Called]) and, as ghost events that the source does not record, the
    calls the driver makes: [NextRound a r] when [changes.nextRound()] of
    evaluation [a] moves the counter to [r], [Acted] and [Committed] for
    [action.execute] and [changes.commit()], [Hook d a] for
    [database.onFixpoint(this, changes)], [Enqueued] and [Started] for
    [evaluationQueue.push] and [evaluationQueue.shift]. *)
Inductive Event :=
| Reported (reporter : nat) (kind msg : string)
| ConsoleError (prefix msg : string)
| Called (k : nat) (c : Changes)
| NextRound (a : nat) (r : Z)
| Acted (a : nat)
| Committed (a : nat) (delta : list Value)
| Hook (d : nat) (a : nat)
| Enqueued (a : nat) (item : QueuedEvaluation)
| Started (a : nat) (item : QueuedEvaluation).

Record World := mkWorld {
  evals : gmap nat Evaluation;
  dbs : gmap nat Database;
  store : Store;
  log : list Event
}.

Inductive Outcome :=
| Returned (w : World)
| Thrown (e : Error) (w : World).

Definition worldOf (o : Outcome) : World :=
  match o with Returned w => w | Thrown _ w => w end.

Definition thrown (o : Outcome) : option Error :=
  match o with Returned _ => None | Thrown e _ => Some e end.

Definition setEval (a : nat) (e : Evaluation) (w : World) : World :=
  mkWorld (<[a := e]> (evals w)) (dbs w) (store w) (log w).

Definition setDb (a : nat) (d : Database) (w : World) : World :=
  mkWorld (evals w) (<[a := d]> (dbs w)) (store w) (log w).

Definition emit (ev : Event) (w : World) : World :=
  mkWorld (evals w) (dbs w) (store w) (log w ++ [ev]).

Definition setStore (s : Store) (w : World) : World :=
  mkWorld (evals w) (dbs w) s (log w).

(** ** Database *)

(** [constructor()] with the value [n] of the static counter. *)
Definition newDatabase (ident : string) : Database :=
  mkDatabase ident [] [] false.

(** [register(evaluation)] *)
Definition register (evaluation : nat) (db : Database) : Database :=
  if bool_decide (evaluation ∈ evaluations db)
  then db
  else mkDatabase (db_id db) (blocks db) (evaluations db ++ [evaluation]) (nonExecuting db).

(** [evals.indexOf(evaluation)] *)
Fixpoint indexOf (x : nat) (l : list nat) : option nat :=
  match l with
  | [] => None
  | y :: l' => if bool_decide (y = x) then Some 0%nat else S <$> indexOf x l'
  end.

(** [unregister(evaluation)]: [None] is the thrown [Error]. *)
Definition unregister (evaluation : nat) (db : Database) : option Database :=
  match indexOf evaluation (evaluations db) with
  | Some i => Some (mkDatabase (db_id db) (blocks db) (delete i (evaluations db)) (nonExecuting db))
  | None => None
  end.

(** ** Evaluation: queue *)

Definition setQueue (q : list QueuedEvaluation) (t : nat) (e : Evaluation) : Evaluation :=
  mkEvaluation (queued e) (currentEvaluation e) q (multiIndex e) (databases e)
    (errorReporter e) (databaseNames e) (nameToDatabase e) t.

(** [processQueue()] hands one callback to [nextTick]; what the callback
    does when it runs is [tick] below. *)
Definition processQueue (e : Evaluation) : Evaluation :=
  setQueue (evaluationQueue e) (S (ticks e)) e.

Definition armed (item : QueuedEvaluation) : QueuedEvaluation :=
  mkQueued (q_type item) (q_commit item) (actions item) (changes item)
    (callback item) (Some ∅) (Some 0).

(** [queue(evaluation)] *)
Definition queue (item : QueuedEvaluation) (e : Evaluation) : Evaluation :=
  let e1 := if negb (queued e) && negb (bool_decide (is_Some (currentEvaluation e)))
            then processQueue e else e in
  setQueue (evaluationQueue e1 ++ [armed item]) (ticks e1) e1.

(** [databaseToName(db)] *)
Definition databaseToName (e : Evaluation) (db : Database) : option string :=
  databaseNames e !! db_id db.

(** The key of the object literal [{[name]: true}]. *)
Definition nameKey (name : option string) : string :=
  match name with Some n => n | None => "undefined" end.

Definition commitItem (commit : list Value) : QueuedEvaluation :=
  mkQueued Qcommit (Some commit) None None None None None.

(** [evaluation.queue(item)] on the evaluation at address [a]. *)
Definition queueAt (a : nat) (item : QueuedEvaluation) (w : World) : World :=
  match evals w !! a with
  | Some e => emit (Enqueued a (armed item)) (setEval a (queue item e) w)
  | None => w
  end.

(** The loop of [onFixpoint] over [this.evaluations]. *)
Fixpoint notifyPeers (cur : nat) (commit : list Value) (peers : list nat)
    (w : World) : World :=
  match peers with
  | [] => w
  | p :: rest =>
      notifyPeers cur commit rest
        (if bool_decide (p = cur) then w else queueAt p (commitItem commit) w)
  end.

(** [Database.onFixpoint(currentEvaluation, changes)] for the database at
    address [d]. *)
Definition onFixpoint (d : nat) (db : Database) (cur : nat) (c : Changes) (w : World) : World :=
  let w0 := emit (Hook d cur) w in
  match evals w !! cur with
  | None => w0
  | Some ce =>
      let name := databaseToName ce db in
      let commit := toCommitted (round c) (changed c) (staged c) (nameKey name) in
      if bool_decide (length commit = 0%nat) then w0
      else notifyPeers cur commit (evaluations db) w0
  end.

(** ** Evaluation: registration *)

Definition setCurrent (cur : option QueuedEvaluation) (e : Evaluation) : Evaluation :=
  mkEvaluation (queued e) cur (evaluationQueue e) (multiIndex e) (databases e)
    (errorReporter e) (databaseNames e) (nameToDatabase e) (ticks e).

Definition setQueued (q : bool) (e : Evaluation) : Evaluation :=
  mkEvaluation q (currentEvaluation e) (evaluationQueue e) (multiIndex e) (databases e)
    (errorReporter e) (databaseNames e) (nameToDatabase e) (ticks e).

(** [error(kind, error)] *)
Definition error (a : nat) (kind msg : string) (w : World) : World :=
  match evals w !! a with
  | Some e =>
      match errorReporter e with
      | Some r => emit (Reported r kind msg) w
      | None => emit (ConsoleError (kind ++ ":") msg) w
      end
  | None => w
  end.

(** Modelled from the spec: [MultiIndex.register(name, index)] binds the
    name to the index ([./indexes] is not among the sources). *)
Definition registerIndex (name ident : string) (m : gmap string string) : gmap string string :=
  <[name := ident]> m.

(** [registerDatabase(name, db)]. [Database.analyze] has an empty body. *)
Definition registerDatabase (a : nat) (name : string) (d : nat) (w : World) : Outcome :=
  match evals w !! a, dbs w !! d with
  | Some e, Some db =>
      if bool_decide (is_Some (nameToDatabase e !! name)) then
        Thrown (JsError ("Trying to register a database name that is already registered: " ++ name)) w
      else
        let e' := mkEvaluation (queued e) (currentEvaluation e) (evaluationQueue e)
                    (registerIndex name (db_id db) (multiIndex e))
                    (databases e ++ [d]) (errorReporter e)
                    (<[db_id db := name]> (databaseNames e))
                    (<[name := d]> (nameToDatabase e)) (ticks e) in
        Returned (setDb d (register a db) (setEval a e' w))
  | _, _ => Returned w
  end.

(** ** Evaluation: the block activation scan *)

(** [tagsCache], with two ghost lists: the entities for which
    [dangerousMergeLookup] was called and the places ([block.id], [ix]) at
    which [checker.check] was called. *)
Record Scan := mkScan {
  tagsCache : gmap string Tags;
  lookups : list Value;
  checks : list (string * nat)
}.

Definition emptyScan : Scan := mkScan ∅ [] [].

(** [commit[ix]] *)
Definition at_ (commit : list Value) (ix : nat) : Value :=
  default undefined (commit !! ix).

(** The values [ix] takes in [for(ix = 0; ix < len; ix += 6)]. *)
Definition commitIndices (len : nat) : list nat :=
  (fun k => 6 * k)%nat <$> seq 0 ((len + 5) / 6).

(** [tags = tagsCache[e]; if(tags === undefined) tags = tagsCache[e] = ...] *)
Definition cachedTags (view : IndexView) (e : Value) (s : Scan) : Tags * Scan :=
  match tagsCache s !! propertyKey e with
  | Some t => (t, s)
  | None =>
      let t := dangerousMergeLookup (fst view) (snd view) e in
      (t, mkScan (<[propertyKey e := t]> (tagsCache s)) (lookups s ++ [e]) (checks s))
  end.

(** The innermost loop for one block; [true] when it left by [break]. *)
Fixpoint scanChanges (view : IndexView) (b : Block) (commit : list Value)
    (ixs : list nat) (s : Scan) : bool * Scan :=
  match ixs with
  | [] => (false, s)
  | ix :: rest =>
      let change := at_ commit ix in
      let e := at_ commit (ix + 1) in
      let a := at_ commit (ix + 2) in
      let v := at_ commit (ix + 3) in
      let '(tags, s1) := cachedTags view e s in
      let s2 := mkScan (tagsCache s1) (lookups s1) (checks s1 ++ [(blk_id b, ix)]) in
      if check b view change tags e a v then (true, s2)
      else scanChanges view b commit rest s2
  end.

Fixpoint scanBlocks (view : IndexView) (commit : list Value) (bs : list Block)
    (acc : list Block) (s : Scan) : list Block * Scan :=
  match bs with
  | [] => (acc, s)
  | b :: rest =>
      if dormant b then scanBlocks view commit rest acc s
      else
        let '(hit, s1) := scanChanges view b commit (commitIndices (length commit)) s in
        scanBlocks view commit rest (if hit then acc ++ [b] else acc) s1
  end.

Fixpoint scanDatabases (w : World) (view : IndexView) (commit : list Value)
    (ds : list nat) (acc : list Block) (s : Scan) : list Block * Scan :=
  match ds with
  | [] => (acc, s)
  | d :: rest =>
      match dbs w !! d with
      | Some db =>
          if nonExecuting db then scanDatabases w view commit rest acc s
          else
            let '(acc1, s1) := scanBlocks view commit (blocks db) acc s in
            scanDatabases w view commit rest acc1 s1
      | None => scanDatabases w view commit rest acc s
      end
  end.

Definition scanCommit (e : Evaluation) (w : World) (commit : list Value) : list Block * Scan :=
  scanDatabases w (multiIndex e, store w) commit (databases e) [] emptyScan.

(** [blocksFromCommit(commit)] *)
Definition blocksFromCommit (e : Evaluation) (w : World) (commit : list Value) : list Block :=
  fst (scanCommit e w commit).

(** [getAllBlocks()] *)
Definition getAllBlocks (e : Evaluation) (w : World) : list Block :=
  d ← databases e;
  match dbs w !! d with
  | Some db => if nonExecuting db then [] else filter (fun b => dormant b = false) (blocks db)
  | None => []
  end.

(** ** Evaluation: the fixpoint driver *)

Definition setItem (a : nat) (item : QueuedEvaluation) (w : World) : World :=
  match evals w !! a with
  | Some e => setEval a (setCurrent (Some item) e) w
  | None => w
  end.

(** [this.currentEvaluation = undefined] *)
Definition clearCurrent (a : nat) (w : World) : World :=
  match evals w !! a with
  | Some e => setEval a (setCurrent None e) w
  | None => w
  end.

Definition setRun (wf : option (gmap string bool)) (wc : option Z) (c : option Changes)
    (item : QueuedEvaluation) : QueuedEvaluation :=
  mkQueued (q_type item) (q_commit item) (actions item) c (callback item) wf wc.

(** The closure [finished] of [processQueue], run for evaluation [a]. *)
Definition finished (a : nat) (inner : option nat) (c : Changes) (w : World) : World :=
  let w1 := match evals w !! a with
            | Some e =>
                setEval a (if bool_decide (evaluationQueue e = []) then setQueued false e
                           else processQueue e) w
            | None => w
            end in
  match inner with
  | Some k => emit (Called k c) w1
  | None => w1
  end.

Definition invoke (a : nat) (cb : Callback) (c : Changes) (w : World) : World :=
  match cb with
  | CbUser k => emit (Called k c) w
  | CbFinished inner => finished a inner c w
  end.

(** [for(let database of this.databases) database.onFixpoint(this, changes)] *)
Definition notifyDatabases (a : nat) (c : Changes) (ds : list nat) (w : World) : World :=
  foldl (fun w' d => match dbs w' !! d with
                     | Some db => onFixpoint d db a c w'
                     | None => w'
                     end) w ds.

(** The [for(let block of blocks)] loop of a round on the fields
    [waitingFor], [waitingCount] of the item and its change set. The flag
    is [false] when [evaluation.waitingFor[block.id] = true] was reached
    with [waitingFor] undefined, which throws a [TypeError]; the state is
    then the one at the throw. *)
Fixpoint runBlocks (view : IndexView) (bs : list Block)
    (wf : option (gmap string bool)) (wc : option Z) (c : Changes)
    : bool * (option (gmap string bool) * option Z * Changes) :=
  match bs with
  | [] => (true, (wf, wc, c))
  | b :: rest =>
      if isRemote b then
        match wf with
        | None => (false, (wf, wc, c))
        | Some m =>
            runBlocks view rest (Some (<[blk_id b := true]> m)) (Z.succ <$> wc)
              (withBody c (blk_execute b view c))
        end
      else runBlocks view rest wf wc (withBody c (blk_execute b view c))
  end.

(** Modelled from the spec: [changes.commit()]. The indexes take the
    staged entries, the change set its new [changed] flag and pending
    entries, and the delta comes back as a flat six-wide array. *)
Definition commitChanges (c : Changes) (w : World) : Changes * list Value * World :=
  let '(s', body, delta) := commitStaged (store w) (round c) (changed c) (staged c) in
  (withBody c body, delta, setStore s' w).

(** Modelled from the spec: [changes.mergeRound(other)] folds the pending
    entries of [other] into the change set, without committing. *)
Definition mergeRound (c o : Changes) : Changes :=
  withBody c (mergeStaged (round c) (changed c) (staged c)
                (round o) (changed o) (staged o)).

(** The [else] branch of [_fixpointRound]: the fixpoint is over. *)
Definition settle (a : nat) (e : Evaluation) (item : QueuedEvaluation) (c : Changes)
    (w : World) : World :=
  let w1 := if MAX_ROUNDS <=? round c
            then error a "Fixpoint Error" "Evaluation failed to fixpoint" w
            else w in
  let w2 := notifyDatabases a c (databases e) w1 in
  let w3 := match callback item with
            | Some cb => invoke a cb c w2
            | None => w2
            end in
  clearCurrent a w3.

(** [_fixpointRound(evaluation, blocks)] of the evaluation at [a];
    [evaluation] is [this.currentEvaluation] at both call sites. The
    recursion is on [fuel]: [None] means the fuel ran out. *)
Fixpoint _fixpointRound (fuel : nat) (a : nat) (bs : list Block) (w : World)
    : option Outcome :=
  match fuel with
  | O => None
  | S fuel' =>
      match evals w !! a with
      | None => Some (Returned w)
      | Some e =>
          match currentEvaluation e with
          | None => Some (Thrown (TypeError "Cannot read property 'changes' of undefined") w)
          | Some item =>
              match changes item with
              | None =>
                  Some (Thrown (TypeError "Cannot read property 'changed' of undefined")
                          (setItem a (setRun (waitingFor item) (Some 0) None item) w))
              | Some c =>
                  if changed c && (round c <? MAX_ROUNDS) then
                    let c1 := nextRound c in
                    let w1 := emit (NextRound a (round c1)) w in
                    let '(ok, (wf, wc, c2)) :=
                      runBlocks (multiIndex e, store w) bs (waitingFor item) (Some 0) c1 in
                    if ok then
                      if bool_decide (wc = Some 0) then
                        let '(c3, delta, w2) := commitChanges c2 w1 in
                        let w3 := emit (Committed a delta)
                                    (setItem a (setRun wf wc (Some c3) item) w2) in
                        _fixpointRound fuel' a (blocksFromCommit e w3 delta) w3
                      else Some (Returned (setItem a (setRun wf wc (Some c2) item) w1))
                    else
                      Some (Thrown (TypeError "Cannot set property of undefined")
                              (setItem a (setRun wf wc (Some c2) item) w1))
                  else
                    Some (Returned
                            (settle a e item c
                               (setItem a (setRun (waitingFor item) (Some 0) (Some c) item) w)))
              end
          end
      end
  end.

(** Rounds left before the cap for the item in the slot of [a]. *)
Definition roundsLeft (a : nat) (w : World) : nat :=
  match evals w !! a with
  | Some e =>
      match currentEvaluation e with
      | Some item =>
          match changes item with
          | Some c => Z.to_nat (MAX_ROUNDS - round c)
          | None => 0
          end
      | None => 0
      end
  | None => 0
  end.

(** [fixpoint(changes, blocks, callback)]: the new item has neither
    [waitingFor] nor [waitingCount]. *)
Definition fixpoint (fuel : nat) (a : nat) (c : Changes) (bs : list Block)
    (cb : option Callback) (w : World) : option Outcome :=
  match evals w !! a with
  | None => Some (Returned w)
  | Some e =>
      let c1 := mkChanges (round c) true (staged c) in
      let item := mkQueued Qchanges None None (Some c1) cb None None in
      _fixpointRound fuel a bs (setEval a (setCurrent (Some item) e) w)
  end.

(** [fixpoint()] with its default arguments. *)
Definition fixpointAll (fuel : nat) (a : nat) (w : World) : option Outcome :=
  match evals w !! a with
  | None => Some (Returned w)
  | Some e => fixpoint fuel a newChanges (getAllBlocks e w) None w
  end.

(** [info] of [onRemoteChanges]. *)
Record RemoteInfo := mkInfo {
  blockId : string;
  info_changes : Changes
}.

(** [evaluation.waitingFor[blockId]] is truthy. *)
Definition awaited (item : QueuedEvaluation) (b : string) : bool :=
  match waitingFor item with
  | Some m => bool_decide (m !! b = Some true)
  | None => false
  end.

(** [evaluation.waitingFor[blockId] = false] after the call of
    [_fixpointRound] came back: [evaluation] is the object that was in the
    slot; when the slot was emptied meanwhile the write is to an object
    nothing refers to any more. *)
Definition unmark (a : nat) (b : string) (w : World) : World :=
  match evals w !! a with
  | Some e =>
      match currentEvaluation e with
      | Some item =>
          setItem a (setRun (insert b false <$> waitingFor item) (waitingCount item)
                       (changes item) item) w
      | None => w
      end
  | None => w
  end.

(** [onRemoteChanges(info)] *)
Definition onRemoteChanges (fuel : nat) (a : nat) (info : RemoteInfo) (w : World)
    : option Outcome :=
  match evals w !! a with
  | None => Some (Returned w)
  | Some e =>
      match currentEvaluation e with
      | None => Some (Thrown (TypeError "Cannot read property 'waitingFor' of undefined") w)
      | Some item =>
          match waitingFor item with
          | None => Some (Thrown (TypeError "Cannot read property of undefined") w)
          | Some m =>
              if bool_decide (m !! blockId info = Some true) then
                match changes item with
                | None => Some (Thrown (TypeError "Cannot read property 'mergeRound' of undefined") w)
                | Some c =>
                    let c1 := mergeRound c (info_changes info) in
                    let wc := Z.pred <$> waitingCount item in
                    let w1 := setItem a (setRun (Some m) wc (Some c1) item) w in
                    if bool_decide (wc = Some 0) then
                      let '(c2, delta, w2) := commitChanges c1 w1 in
                      let w3 := emit (Committed a delta)
                                  (setItem a (setRun (Some m) wc (Some c2) item) w2) in
                      match _fixpointRound fuel a (blocksFromCommit e w3 delta) w3 with
                      | Some (Returned w4) => Some (Returned (unmark a (blockId info) w4))
                      | other => other
                      end
                    else Some (Returned (unmark a (blockId info) w1))
                end
              else
                Some (Thrown (JsError "Got a remote block execution for a block we're not waiting for") w)
          end
      end
  end.

(** ** Evaluation: draining the queue *)

Definition actionsItem (acts : list Action) (c : Changes) (cb : option nat) : QueuedEvaluation :=
  mkQueued Qactions None (Some acts) (Some c) (CbUser <$> cb) None None.

(** [executeActions(actions, changes, callback)] *)
Definition executeActions (a : nat) (acts : list Action) (c : Changes) (cb : option nat)
    (w : World) : World :=
  queueAt a (actionsItem acts c cb) w.

(** [for(let action of actions) action.execute(this.multiIndex, [], changes)] *)
Definition stageActions (view : IndexView) (acts : list Action) (c : Changes) : Changes :=
  foldl (fun c' act => withBody c' (act_execute act view c')) c acts.

Definition userCallback (item : QueuedEvaluation) : option nat :=
  match callback item with
  | Some (CbUser k) => Some k
  | _ => None
  end.

(** One callback that [processQueue] handed to [nextTick], when it runs. *)
Definition tick (fuel : nat) (a : nat) (w : World) : option Outcome :=
  match evals w !! a with
  | None => Some (Returned w)
  | Some e =>
      match evaluationQueue e with
      | [] => Some (Returned (setEval a (setQueue [] (pred (ticks e)) e) w))
      | queuedItem :: rest =>
          let e1 := setQueue rest (pred (ticks e)) e in
          let w1 := emit (Started a queuedItem) (setEval a e1 w) in
          let fin := Some (CbFinished (userCallback queuedItem)) in
          match q_type queuedItem with
          | Qcommit =>
              match q_commit queuedItem with
              | None => Some (Thrown (TypeError "queued.commit is not iterable") w1)
              | Some commits =>
                  fixpoint fuel a newChanges (blocksFromCommit e1 w1 commits) fin w1
              end
          | Qactions =>
              match actions queuedItem, changes queuedItem with
              | Some acts, Some c =>
                  let c1 := stageActions (multiIndex e1, store w1) acts c in
                  let w2 := foldl (fun w' _ => emit (Acted a) w') w1 acts in
                  let '(c2, committed, w3) := commitChanges c1 w2 in
                  let w4 := emit (Committed a committed) w3 in
                  fixpoint fuel a c2 (blocksFromCommit e1 w4 committed) fin w4
              | None, _ => Some (Thrown (TypeError "actions is not iterable") w1)
              | Some acts, None =>
                  Some (Thrown (TypeError "Cannot read property 'commit' of undefined") w1)
              end
          | Qchanges => Some (Returned w1)
          end
      end
  end.

(** ** What the scan computes *)

(** The first element of a list that passes a test. *)
Fixpoint firstWith {A : Type} (f : A -> bool) (l : list A) : option A :=
  match l with
  | [] => None
  | x :: l' => if f x then Some x else firstWith f l'
  end.

(** The elements of a list up to and including the first that passes. *)
Fixpoint upToFirst {A : Type} (f : A -> bool) (l : list A) : list A :=
  match l with
  | [] => []
  | x :: l' => if f x then [x] else x :: upToFirst f l'
  end.

(** The first place of the commit whose entity has the property key [k]. *)
Definition firstPlace (commit : list Value) (k : string) : option nat :=
  firstWith (fun ix => bool_decide (propertyKey (at_ commit (ix + 1)) = k))
    (commitIndices (length commit)).

(** The tags the scan uses for the entity [e]: those of the first entity
    of the commit that has the property key of [e]. *)
Definition tagsFor (view : IndexView) (commit : list Value) (e : Value) : Tags :=
  match firstPlace commit (propertyKey e) with
  | Some ix => dangerousMergeLookup (fst view) (snd view) (at_ commit (ix + 1))
  | None => dangerousMergeLookup (fst view) (snd view) e
  end.

(** [checker.check] of block [b] on the change at place [ix]. *)
Definition firesAt (view : IndexView) (commit : list Value) (b : Block) (ix : nat) : bool :=
  check b view (at_ commit ix) (tagsFor view commit (at_ commit (ix + 1)))
    (at_ commit (ix + 1)) (at_ commit (ix + 2)) (at_ commit (ix + 3)).

(** Some change of the commit makes [b] fire. *)
Definition fires (view : IndexView) (commit : list Value) (b : Block) : bool :=
  existsb (firesAt view commit b) (commitIndices (length commit)).

(** The places at which the scan calls [checker.check] of [b]. *)
Definition checkedFor (view : IndexView) (commit : list Value) (b : Block)
    : list (string * nat) :=
  (fun ix => (blk_id b, ix)) <$>
    upToFirst (firesAt view commit b) (commitIndices (length commit)).

(** The invariant of the scan. The cache holds, for each key, the tags of
    the first entity of the commit with that key; the lookups that filled
    it were for different keys. *)
Definition cacheOk (view : IndexView) (commit : list Value) (s : Scan) : Prop :=
  (forall k t, tagsCache s !! k = Some t ->
     exists ix, firstPlace commit k = Some ix
                /\ t = dangerousMergeLookup (fst view) (snd view) (at_ commit (ix + 1)))
  /\ NoDup (propertyKey <$> lookups s)
  /\ (forall e, e ∈ lookups s -> is_Some (tagsCache s !! propertyKey e)).

(** The entities at the places [pre] have their tags in the cache. *)
Definition visited (commit : list Value) (pre : list nat) (s : Scan) : Prop :=
  forall ix, ix ∈ pre -> is_Some (tagsCache s !! propertyKey (at_ commit (ix + 1))).

Definition grows (s s' : Scan) : Prop :=
  forall k, is_Some (tagsCache s !! k) -> is_Some (tagsCache s' !! k).

(** ** Reading the log *)

(** The values [changes.round] took at the [nextRound()] calls of [a]. *)
Definition roundsOf (a : nat) (l : list Event) : list Z :=
  omap (fun ev => match ev with
                  | NextRound b r => if bool_decide (b = a) then Some r else None
                  | _ => None
                  end) l.

(** The items pushed on, and shifted off, the queue of [a]. *)
Definition enqueuedOf (a : nat) (l : list Event) : list QueuedEvaluation :=
  omap (fun ev => match ev with
                  | Enqueued b item => if bool_decide (b = a) then Some item else None
                  | _ => None
                  end) l.

Definition startedOf (a : nat) (l : list Event) : list QueuedEvaluation :=
  omap (fun ev => match ev with
                  | Started b item => if bool_decide (b = a) then Some item else None
                  | _ => None
                  end) l.

(** The databases whose [onFixpoint] the evaluation [a] called. *)
Definition hooksOf (a : nat) (l : list Event) : list nat :=
  omap (fun ev => match ev with
                  | Hook d b => if bool_decide (b = a) then Some d else None
                  | _ => None
                  end) l.

(** The deltas of the [commit()] calls of [a], and its [execute] calls of
    actions, in order: [None] for an action, [Some delta] for a commit. *)
Definition stagingOf (a : nat) (l : list Event) : list (option (list Value)) :=
  omap (fun ev => match ev with
                  | Acted b => if bool_decide (b = a) then Some None else None
                  | Committed b delta => if bool_decide (b = a) then Some (Some delta) else None
                  | _ => None
                  end) l.

(** The events of [onFixpoint]: the hook itself and the pushes on peers. *)
Definition isTraffic (ev : Event) : bool :=
  match ev with
  | Hook _ _ | Enqueued _ _ => true
  | _ => false
  end.

(** [this.error("Fixpoint Error", ...)] as an event. *)
Definition divergenceReport (e : Evaluation) : Event :=
  match errorReporter e with
  | Some r => Reported r "Fixpoint Error" "Evaluation failed to fixpoint"
  | None => ConsoleError "Fixpoint Error:" "Evaluation failed to fixpoint"
  end.

(** The events of calling the callback of an item with [c]. *)
Definition callbackEvents (item : QueuedEvaluation) (c : Changes) : list Event :=
  match callback item with
  | Some (CbUser k) => [Called k c]
  | Some (CbFinished (Some k)) => [Called k c]
  | _ => []
  end.

(** The item in the slot of the evaluation at [a]. *)
Definition slot (a : nat) (w : World) : option QueuedEvaluation :=
  evals w !! a ≫= currentEvaluation.

(** The mark of block [b] in the [waitingFor] map of the item in the slot. *)
Definition markOf (a : nat) (b : string) (w : World) : option bool :=
  match slot a w with
  | Some item =>
      match waitingFor item with
      | Some m => m !! b
      | None => None
      end
  | None => None
  end.

(** One call after another, on the world the first one leaves. *)
Definition andThen (r : option Outcome) (k : World -> option Outcome) : option Outcome :=
  match r with
  | Some o => k (worldOf o)
  | None => None
  end.

(** [r + 1, ..., r + k] *)
Definition roundsFrom (r : Z) (k : nat) : list Z :=
  (fun i => r + Z.of_nat i) <$> seq 1 k.

(** How often [p] occurs in a list of addresses. *)
Definition timesIn (p : nat) (l : list nat) : nat :=
  length (filter (fun x => x = p) l).

(** A database as a sequence of [register] calls leaves it. *)
Definition registerAll (evs : list nat) (db : Database) : Database :=
  foldl (fun d ev => register ev d) db evs.

(** The queue discipline. [fifo]: what was pushed on the queue of an
    evaluation is what was shifted off it followed by what is still in
    it. [pushesOnly w w']: from [w] to [w'] no evaluation came or went,
    every queue grew at its end by what the log says was pushed on it, and
    nothing was shifted. *)
Definition fifo (w : World) : Prop :=
  forall a e, evals w !! a = Some e ->
    enqueuedOf a (log w) = startedOf a (log w) ++ evaluationQueue e.

Definition pushesOnly (w w' : World) : Prop :=
  (forall p, is_Some (evals w' !! p) -> is_Some (evals w !! p))
  /\ (forall p pe, evals w !! p = Some pe ->
        exists pe' pushed,
          evals w' !! p = Some pe'
          /\ evaluationQueue pe' = evaluationQueue pe ++ pushed
          /\ enqueuedOf p (log w') = enqueuedOf p (log w) ++ pushed
          /\ startedOf p (log w') = startedOf p (log w)).

(** Events that are neither a push nor a shift. *)
Definition offQueue (ev : Event) : bool :=
  match ev with
  | Enqueued _ _ | Started _ _ => false
  | _ => true
  end.

(** The error reports and the user callbacks. *)
Definition isDivergenceReport (ev : Event) : bool :=
  match ev with
  | Reported _ kind _ => bool_decide (kind = "Fixpoint Error")
  | ConsoleError prefix _ => bool_decide (prefix = "Fixpoint Error:")
  | _ => false
  end.

End Runtime.

(** * The rest of [Database] and [Evaluation] *)

Section Lifecycle.
Context `{Collaborators}.

(** [constructor(index?)] of [Evaluation]; [index] is the multi-index it is
    given, or a new one. *)
Definition newEvaluation (index : gmap string string) : Evaluation :=
  mkEvaluation false None [] index [] None ∅ ∅ 0.

(** [getDatabase(name)] *)
Definition getDatabase (e : Evaluation) (name : string) : option nat :=
  nameToDatabase e !! name.

(** Modelled from the spec: [MultiIndex.unregister(name)] takes the name out
    of the multi-index ([./indexes] is not among the sources). *)
Definition unregisterIndex (name : string) (m : gmap string string) : gmap string string :=
  delete name m.

(** [l.splice(l.indexOf(x), 1)]: with [indexOf] at [-1], [splice(-1, 1)]
    takes the last element out. *)
Definition spliceOut (x : nat) (l : list nat) : list nat :=
  match indexOf x l with
  | Some i => delete i l
  | None => take (length l - 1) l
  end.

(** [unregisterDatabase(name)]. The name is deleted first; the throw of
    [db.unregister(this)] comes after the tables were changed. *)
Definition unregisterDatabase (a : nat) (name : string) (w : World) : Outcome :=
  match evals w !! a with
  | None => Returned w
  | Some e =>
      let names := delete name (nameToDatabase e) in
      match nameToDatabase e !! name with
      | None =>
          Returned (setEval a (mkEvaluation (queued e) (currentEvaluation e)
                                 (evaluationQueue e) (multiIndex e) (databases e)
                                 (errorReporter e) (databaseNames e) names (ticks e)) w)
      | Some d =>
          match dbs w !! d with
          | None => Returned w
          | Some db =>
              let e' := mkEvaluation (queued e) (currentEvaluation e) (evaluationQueue e)
                          (unregisterIndex name (multiIndex e))
                          (spliceOut d (databases e)) (errorReporter e)
                          (delete (db_id db) (databaseNames e)) names (ticks e) in
              match unregister a db with
              | Some db' => Returned (setDb d db' (setEval a e' w))
              | None =>
                  Thrown (JsError "Trying to unregister an evaluation that isn't registered with this database")
                    (setEval a e' w)
              end
          end
      end
  end.

(** The loop of [close()]: [database.unregister(this)] for each database;
    a throw leaves the earlier ones unregistered. *)
Fixpoint closeLoop (a : nat) (ds : list nat) (w : World) : Outcome :=
  match ds with
  | [] => Returned w
  | d :: rest =>
      match dbs w !! d with
      | None => closeLoop a rest w
      | Some db =>
          match unregister a db with
          | Some db' => closeLoop a rest (setDb d db' w)
          | None =>
              Thrown (JsError "Trying to unregister an evaluation that isn't registered with this database") w
          end
      end
  end.

(** [close()] *)
Definition close (a : nat) (w : World) : Outcome :=
  match evals w !! a with
  | Some e => closeLoop a (databases e) w
  | None => Returned w
  end.

(** The evaluation [a] is in the list of the database at [d]. *)
Definition listedIn (a d : nat) (w : World) : Prop :=
  exists db, dbs w !! d = Some db /\ a ∈ evaluations db.

(** A user callback was called. *)
Definition isCalled (ev : Event) : bool :=
  match ev with
  | Called _ _ => true
  | _ => false
  end.

(** The blocks of a list that are remote. *)
Definition remoteOnes (bs : list Block) : list Block :=
  filter (fun b => isRemote b = true) bs.

(** [waitingFor[b.id] = true] for each block of a list. *)
Definition markAll (bs : list Block) (m : gmap string bool) : gmap string bool :=
  foldl (fun m' b => <[blk_id b := true]> m') m bs.

(** [waitingFor[id] = false] for each id of a list. *)
Definition unmarkAll (ids : list string) (m : gmap string bool) : gmap string bool :=
  foldl (fun m' b => <[b := false]> m') m ids.

(** One [onRemoteChanges] call after another, as long as they return. *)
Fixpoint deliverAll (fuel a : nat) (infos : list RemoteInfo) (w : World) : option Outcome :=
  match infos with
  | [] => Some (Returned w)
  | info :: rest =>
      match onRemoteChanges fuel a info w with
      | Some (Returned w') => deliverAll fuel a rest w'
      | other => other
      end
  end.

(** The Commit items that the hooks of the databases [ds] push on the
    queue of the evaluation [p] at the end of a fixpoint with the change
    set [c]: for each database, in order, none when its delta is empty and
    otherwise one for each time [p] is in its list. [names] is the table
    [databaseNames] of the evaluation that ran the fixpoint. *)
Definition fanOutOver (names : gmap string string) (heap : gmap nat Database)
    (c : Changes) (p : nat) (ds : list nat) : list QueuedEvaluation :=
  d ← ds;
  match heap !! d with
  | Some db =>
      let commit := toCommitted (round c) (changed c) (staged c)
                      (nameKey (names !! db_id db)) in
      if bool_decide (length commit = 0%nat) then []
      else replicate (timesIn p (evaluations db)) (armed (commitItem commit))
  | None => []
  end.

(** What calling the callback of an item does to the evaluation that owns
    the closure [finished]. *)
Definition afterCallback (cb : option Callback) (e : Evaluation) : Evaluation :=
  match cb with
  | Some (CbFinished _) =>
      if bool_decide (evaluationQueue e = []) then setQueued false e else processQueue e
  | _ => e
  end.

(** [lifts R w w']: from [w] to [w'] no evaluation came or went, the
    databases are the same, and every evaluation is related by [R] to what
    it was. *)
Definition lifts (R : Evaluation -> Evaluation -> Prop) (w w' : World) : Prop :=
  (forall p, is_Some (evals w' !! p) -> is_Some (evals w !! p))
  /\ (forall p pe, evals w !! p = Some pe -> exists pe', evals w' !! p = Some pe' /\ R pe pe')
  /\ dbs w' = dbs w.

(** [queued] is not set. *)
Definition staysUnqueued (e e' : Evaluation) : Prop :=
  queued e = false -> queued e' = false.

(** The registration tables and the reporter are the same. *)
Definition sameTables (e e' : Evaluation) : Prop :=
  multiIndex e' = multiIndex e
  /\ databases e' = databases e
  /\ databaseNames e' = databaseNames e
  /\ nameToDatabase e' = nameToDatabase e
  /\ errorReporter e' = errorReporter e.

End Lifecycle.

(** ** Loading a dump *)

(** What [load] takes from [./id] and [./changes]: [ids.isId], [ids.load],
    and [changes.store(db, e, a, v, n)], which gives the new [changed]
    flag and pending entries. *)
Class Persistence `{Collaborators} := {
  isId : Value -> bool;
  idsLoad : Value -> Value;
  storeFact : string -> Value -> Value -> Value -> Value -> bool -> Staged -> bool * Staged
}.

Section Load.
Context `{Persistence}.

(** [if(ids.isId(x)) x = ids.load(x)] *)
Definition revive (x : Value) : Value := if isId x then idsLoad x else x.

(** The inner loop of [load]: [let [e,a,v,n] = fact; ...; changes.store(...)]. *)
Definition loadFacts (name : string) (facts : list (list Value)) (c : Changes) : Changes :=
  foldl (fun c' fact =>
           withBody c' (storeFact name (revive (at_ fact 0)) (at_ fact 1)
                          (revive (at_ fact 2)) (at_ fact 3) (changed c') (staged c')))
    c facts.

(** The outer loop over [Object.keys(dbs)]; [None] when [getDatabase] gives
    [undefined] and [db.index] throws. *)
Fixpoint loadLoop (e : Evaluation) (dump : list (string * list (list Value)))
    (c : Changes) : option Changes :=
  match dump with
  | [] => Some c
  | (name, facts) :: rest =>
      match getDatabase e name with
      | None => None
      | Some _ => loadLoop e rest (loadFacts name facts c)
      end
  end.

(** [load(dbs)]; the dump is the object [dbs] as the list of its keys, in
    the order of [Object.keys], with their facts. *)
Definition load (a : nat) (dump : list (string * list (list Value))) (w : World) : Outcome :=
  match evals w !! a with
  | None => Returned w
  | Some e =>
      match loadLoop e dump newChanges with
      | None => Thrown (TypeError "Cannot read property 'index' of undefined") w
      | Some c => Returned (executeActions a [] c None w)
      end
  end.

End Load.

(** ** A small instance of the collaborators

    Values are numbers and strings, the indexes hold triples, a change set
    holds the triples it will add and the delta of its last commit. It is
    the instance the examples below run on. *)

Module Demo.

Inductive JsVal :=
| Undef
| Num (z : Z)
| Str (s : string).

#[global] Instance JsVal_eq_dec : EqDecision JsVal.
Proof. solve_decision. Defined.

Definition key (v : JsVal) : string :=
  match v with
  | Undef => "undefined"
  | Num z => pretty z
  | Str s => s
  end.

Definition Triple : Type := JsVal * JsVal * JsVal.

Definition tagsOf (names : gmap string string) (s : list Triple) (e : JsVal) : list JsVal :=
  omap (fun t : Triple =>
          if bool_decide (t.1.1 = e) && bool_decide (t.1.2 = Str "tag")
          then Some t.2 else None) s.

Definition fresh (s : list Triple) (p : list Triple) : list Triple :=
  filter (fun t => t ∉ s) p.

Definition sixWide (r : Z) (t : Triple) : list JsVal :=
  [Num 1; t.1.1; t.1.2; t.2; Str "n"; Num r].

Definition commitDemo (s : list Triple) (r : Z) (chg : bool)
    (st : list Triple * list JsVal)
    : list Triple * (bool * (list Triple * list JsVal)) * list JsVal :=
  let f := fresh s st.1 in
  let delta := f ≫= sixWide r in
  (s ++ f, (bool_decide (f ≠ []), ([], st.2 ++ delta)), delta).

#[global] Instance collaborators : Collaborators := {|
  Value := JsVal;
  undefined := Undef;
  propertyKey := key;
  Tags := list JsVal;
  Store := list Triple;
  Staged := list Triple * list JsVal;
  emptyStaged := ([], []);
  dangerousMergeLookup := tagsOf;
  commitStaged := commitDemo;
  mergeStaged := fun _ chg st _ _ st' => (chg, (st.1 ++ st'.1, st.2));
  toCommitted := fun _ _ st _ => st.2
|}.

(** A block that fires on every change and stages [(e1, seen, round)]: it
    never comes to rest. *)
Definition eager (ident : string) (rem : bool) : Block :=
  mkBlock ident false rem
    (fun _ _ _ _ _ _ => true)
    (fun _ c => (changed c, ((staged c).1 ++ [(Str "e1", Str "seen", Num (round c))], (staged c).2))).

(** A block that fires on every change and stages [(e1, kind, human)]. *)
Definition once (ident : string) (rem : bool) : Block :=
  mkBlock ident false rem
    (fun _ _ _ _ _ _ => true)
    (fun _ c => (changed c, ((staged c).1 ++ [(Str "e1", Str "kind", Str "human")], (staged c).2))).

(** A block that fires on no change. *)
Definition idle (ident : string) : Block :=
  mkBlock ident false false (fun _ _ _ _ _ _ => false) (fun _ c => (changed c, staged c)).

(** An action that stages [(e1, tag, person)]. *)
Definition addPerson : Action :=
  mkAction (fun _ c => (changed c, ((staged c).1 ++ [(Str "e1", Str "tag", Str "person")], (staged c).2))).

Definition emptyEvaluation : Evaluation :=
  mkEvaluation false None [] ∅ [] None ∅ ∅ 0.

(** An evaluation with the database at address [0] registered as "main". *)
Definition mainEvaluation : Evaluation :=
  mkEvaluation false None [] {["main" := "db|1"]} [0%nat] None
    {["db|1" := "main"]} {["main" := 0%nat]} 0.

Definition mainDatabase (bs : list Block) (flag : bool) : Database :=
  mkDatabase "db|1" bs [1%nat] flag.

(** One evaluation, at address [1], with one database, at address [0]. *)
Definition world1 (bs : list Block) (flag : bool) : World :=
  mkWorld {[1%nat := mainEvaluation]} {[0%nat := mainDatabase bs flag]} [] [].

(** Two evaluations, at [1] and [2], that share the database at [0]. *)
Definition sharedDatabase : Database :=
  mkDatabase "db|1" [] [1%nat; 2%nat] false.

Definition world2 : World :=
  mkWorld {[1%nat := mainEvaluation; 2%nat := mainEvaluation]}
    {[0%nat := sharedDatabase]} [] [].

(** A change set after one round that committed [(e1, tag, t)]. *)
Definition delta1 : list JsVal := sixWide 1 (Str "e1", Str "tag", Str "t").

(** The delta of committing [(e1, tag, person)] in round 0. *)
Definition delta0 : list JsVal := sixWide 0 (Str "e1", Str "tag", Str "person").

Definition committed1 : Changes := mkChanges 1 false ([], delta1).

(** An item in the slot, as [fixpoint] or a resumed round leaves it. *)
Definition runningItem (c : Changes) (wf : option (gmap string bool)) (wc : option Z)
    : QueuedEvaluation :=
  mkQueued Qchanges None None (Some c) (Some (CbUser 7)) wf wc.

Definition running (bs : list Block) (c : Changes) (wf : option (gmap string bool))
    (wc : option Z) : World :=
  mkWorld {[1%nat := setCurrent (Some (runningItem c wf wc)) mainEvaluation]}
    {[0%nat := mainDatabase bs false]} [] [].

Definition seed : Changes :=
  mkChanges 0 true ([(Str "e1", Str "tag", Str "person")], []).

Definition atCap : Changes := mkChanges 300 true ([], []).

(** Two [executeActions] calls in one turn; the seed of the first makes a
    remote block fire. *)
Definition itemA : QueuedEvaluation := actionsItem [addPerson] newChanges (Some 7%nat).
Definition itemB : QueuedEvaluation := actionsItem [] newChanges (Some 8%nat).

Definition twoQueued : World :=
  executeActions 1 [] newChanges (Some 8%nat)
    (executeActions 1 [addPerson] newChanges (Some 7%nat)
       (world1 [once "b1" true] false)).

(** An item parked on the remote block "b1" in round 1, with one more item
    in the queue and one drain callback pending. *)
Definition parkedItem : QueuedEvaluation :=
  runningItem (mkChanges 1 false ([], [])) (Some {["b1" := true]}) (Some 1).

Definition parked : World :=
  mkWorld {[1%nat := mkEvaluation false (Some parkedItem) [armed itemB]
                      {["main" := "db|1"]} [0%nat] None
                      {["db|1" := "main"]} {["main" := 0%nat]} 1]}
    {[0%nat := mainDatabase [once "b1" true] false]} [] [].

(** The delivery for "b1": it brings [(e1, tag, person)]. *)
Definition delivery : RemoteInfo :=
  mkInfo "b1" (mkChanges 1 false ([(Str "e1", Str "tag", Str "person")], [])).

Definition calledWith (k : nat) (ev : Event) : bool :=
  match ev with
  | Called k' _ => bool_decide (k' = k)
  | _ => false
  end.

End Demo.

(** ** More of the small instance *)

Module Cases.
Import Demo.

(** [ids.isId] holds of the numbers, [ids.load] leaves them, and
    [changes.store] appends the triple. *)
#[global] Instance persistence : Persistence := {|
  isId := fun v => match v with Num _ => true | _ => false end;
  idsLoad := fun v => v;
  storeFact := fun _ e a v _ chg st => (chg, (st.1 ++ [(e, a, v)], st.2))
|}.

(** The world of [world1] with one more database, at [5], not registered. *)
Definition spare : Database := newDatabase "db|2".

Definition withSpare : World :=
  mkWorld {[1%nat := mainEvaluation]}
    {[0%nat := mainDatabase [] false; 5%nat := spare]} [] [].

(** "main" is registered but the database does not list the evaluation. *)
Definition unlisted : World :=
  mkWorld {[1%nat := mainEvaluation]} {[0%nat := mkDatabase "db|1" [] [] false]} [] [].

(** A change set of round 1 with nothing staged. *)
Definition quiet1 : Changes := mkChanges 1 false ([], []).

(** An item parked on "b1" and "b2". *)
Definition parkedTwice : QueuedEvaluation :=
  runningItem (mkChanges 1 false ([], [])) (Some {["b1" := true; "b2" := true]}) (Some 2).

Definition parked2 : World :=
  mkWorld {[1%nat := setCurrent (Some parkedTwice) mainEvaluation]}
    {[0%nat := mainDatabase [] false]} [] [].

(** One program with a local block, its seed queued. *)
Definition queuedOnce : World :=
  executeActions 1 [addPerson] newChanges (Some 7%nat) (world1 [once "b1" false] false).

(** One Actions item without actions, queued on a program without blocks,
    and the world its drain leaves. *)
Definition queuedB : World :=
  executeActions 1 [] newChanges (Some 8%nat) (world1 [] false).

Definition outcomeOr (w : World) (r : option Outcome) : Outcome :=
  match r with
  | Some o => o
  | None => Returned w
  end.

Definition returned (r : option Outcome) : bool :=
  match r with
  | Some (Returned _) => true
  | _ => false
  end.

Definition drainedB : World := worldOf (outcomeOr queuedB (tick 5 1 queuedB)).

Definition dumpMain : list (string * list (list JsVal)) :=
  [("main", [[Str "e1"; Str "tag"; Str "person"; Str "n1"]])].

Definition dumpOther : list (string * list (list JsVal)) :=
  [("main", [[Str "e1"; Str "tag"; Str "person"; Str "n1"]]); ("other", [])].

End Cases.

(** * Properties *)

Section Properties.
Context `{Collaborators}.

(** ** Database.register *)

Lemma register_present (db : Database) (ev : nat) :
  ev ∈ evaluations db -> register ev db = db.
Proof.
  intros Hin. unfold register. by rewrite bool_decide_eq_true_2.
Qed.

Lemma register_elem (db : Database) (ev : nat) :
  ev ∈ evaluations (register ev db).
Proof.
  unfold register. case_bool_decide as Hin; [done|].
  simpl. apply elem_of_app. right. apply list_elem_of_singleton. reflexivity.
Qed.

Lemma register_NoDup (db : Database) (ev : nat) :
  NoDup (evaluations db) -> NoDup (evaluations (register ev db)).
Proof.
  intros Hnd. unfold register. case_bool_decide as Hin; [done|].
  simpl. apply NoDup_app. split; [done|]. split.
  - intros x Hx Hx'. apply list_elem_of_singleton in Hx'. by subst.
  - apply NoDup_singleton.
Qed.

Lemma registerAll_NoDup (evs : list nat) (db : Database) :
  NoDup (evaluations db) -> NoDup (evaluations (registerAll evs db)).
Proof.
  revert db. induction evs as [|ev evs IH]; intros db Hnd; [done|].
  simpl. apply IH. by apply register_NoDup.
Qed.

(** ** Evaluation.queue and Database.onFixpoint *)

Lemma enqueuedOf_app (p : nat) (l1 l2 : list Event) :
  enqueuedOf p (l1 ++ l2) = enqueuedOf p l1 ++ enqueuedOf p l2.
Proof. apply omap_app. Qed.

Lemma queue_evaluationQueue (item : QueuedEvaluation) (e : Evaluation) :
  evaluationQueue (queue item e) = evaluationQueue e ++ [armed item].
Proof.
  unfold queue. destruct (negb (queued e) && _); reflexivity.
Qed.

Lemma timesIn_cons (p q : nat) (l : list nat) :
  timesIn p (q :: l) = ((if bool_decide (q = p) then 1 else 0) + timesIn p l)%nat.
Proof.
  unfold timesIn. rewrite filter_cons.
  case_bool_decide; case_decide; simpl; congruence.
Qed.

Lemma timesIn_absent (p : nat) (l : list nat) :
  p ∉ l -> timesIn p l = 0%nat.
Proof.
  induction l as [|x l IH]; intros Hp; [reflexivity|].
  rewrite timesIn_cons. apply not_elem_of_cons in Hp as [Hne Hp].
  rewrite bool_decide_eq_false_2; [|congruence]. by rewrite IH.
Qed.

Lemma timesIn_NoDup (p : nat) (l : list nat) :
  NoDup l -> (timesIn p l <= 1)%nat.
Proof.
  induction 1 as [|x l Hx Hnd IH]; [unfold timesIn; simpl; lia|].
  rewrite timesIn_cons. case_bool_decide as Hq; [|lia].
  subst x. rewrite timesIn_absent; [lia|done].
Qed.

Lemma queueAt_other (p q : nat) (item : QueuedEvaluation) (w : World) :
  p <> q -> evals (queueAt q item w) !! p = evals w !! p
            /\ enqueuedOf p (log (queueAt q item w)) = enqueuedOf p (log w).
Proof.
  intros Hne. unfold queueAt. destruct (evals w !! q) as [qe|]; [|done].
  simpl. rewrite lookup_insert_ne; [|done]. split; [done|].
  rewrite enqueuedOf_app. simpl. rewrite bool_decide_eq_false_2; [|done].
  by rewrite app_nil_r.
Qed.

Lemma queueAt_same (p : nat) (item : QueuedEvaluation) (w : World) (pe : Evaluation) :
  evals w !! p = Some pe ->
  evals (queueAt p item w) !! p = Some (queue item pe)
  /\ enqueuedOf p (log (queueAt p item w)) = enqueuedOf p (log w) ++ [armed item].
Proof.
  intros Hp. unfold queueAt. rewrite Hp. simpl. rewrite lookup_insert_eq.
  split; [done|]. rewrite enqueuedOf_app. simpl. by rewrite bool_decide_eq_true_2.
Qed.

(** What the loop of [onFixpoint] does to the queue of each evaluation. *)
Lemma notifyPeers_queue (cur : nat) (commit : list Value) (peers : list nat) :
  forall (w : World) (p : nat) (pe : Evaluation),
    evals w !! p = Some pe ->
    let n := if bool_decide (p = cur) then 0%nat else timesIn p peers in
    exists pe',
      evals (notifyPeers cur commit peers w) !! p = Some pe'
      /\ evaluationQueue pe' = evaluationQueue pe ++ replicate n (armed (commitItem commit))
      /\ enqueuedOf p (log (notifyPeers cur commit peers w))
         = enqueuedOf p (log w) ++ replicate n (armed (commitItem commit)).
Proof.
  induction peers as [|q rest IH]; intros w p pe Hp n.
  - exists pe. subst n. unfold timesIn. simpl.
    case_bool_decide; simpl; rewrite !app_nil_r; done.
  - simpl. subst n. rewrite timesIn_cons.
    case_bool_decide as Hqc.
    + (* the current evaluation is skipped *)
      subst q. destruct (IH w p pe Hp) as (pe' & H1 & H2 & H3).
      exists pe'. case_bool_decide as Hpc; [done|].
      rewrite bool_decide_eq_false_2; [|congruence]. done.
    + destruct (decide (p = q)) as [->|Hpq].
      * destruct (queueAt_same q (commitItem commit) w pe Hp) as [Hq1 Hq2].
        destruct (IH _ q _ Hq1) as (pe' & H1 & H2 & H3).
        exists pe'. rewrite bool_decide_eq_false_2 in H2, H3 |- *; [|done..].
        rewrite (bool_decide_eq_true_2 (q = q)); [|done].
        split; [done|]. rewrite H2, H3, Hq2, queue_evaluationQueue.
        simpl. rewrite <- !app_assoc. done.
      * destruct (queueAt_other p q (commitItem commit) w Hpq) as [Hq1 Hq2].
        rewrite <- Hq1 in Hp.
        destruct (IH _ p pe Hp) as (pe' & H1 & H2 & H3).
        exists pe'. rewrite (bool_decide_eq_false_2 (q = p)); [|congruence].
        rewrite Hq2 in H3. done.
Qed.

Lemma notifyPeers_frame (cur : nat) (commit : list Value) (peers : list nat) (w : World) :
  dbs (notifyPeers cur commit peers w) = dbs w
  /\ store (notifyPeers cur commit peers w) = store w
  /\ evals (notifyPeers cur commit peers w) !! cur = evals w !! cur.
Proof.
  revert w. induction peers as [|q rest IH]; intros w; [done|].
  simpl. case_bool_decide as Hqc; [apply IH|].
  destruct (IH (queueAt q (commitItem commit) w)) as (H1 & H2 & H3).
  rewrite H1, H2, H3. unfold queueAt.
  destruct (evals w !! q); [|done]. simpl.
  rewrite lookup_insert_ne; done.
Qed.

(** C10: [Database.register] is idempotent. Registering an evaluation that
    is already in the list leaves the database as it is, registering twice
    is registering once, a list without duplicates stays so (and the list
    of a new database, after any registrations, has none), and [onFixpoint]
    on a database whose list has no duplicates pushes at most one item on
    the queue of any evaluation. *)
Theorem register_idempotent (db : Database) (evaluation : nat) :
  (evaluation ∈ evaluations db -> register evaluation db = db)
  /\ register evaluation (register evaluation db) = register evaluation db
  /\ (NoDup (evaluations db) -> NoDup (evaluations (register evaluation db)))
  /\ (forall (evs : list nat) (ident : string),
        NoDup (evaluations (registerAll evs (newDatabase ident))))
  /\ (NoDup (evaluations db) ->
      forall (d cur : nat) (c : Changes) (w : World) (p : nat) (pe : Evaluation),
        evals w !! cur = Some pe ->
        (length (enqueuedOf p (log (onFixpoint d db cur c w)))
         <= S (length (enqueuedOf p (log w))))%nat).
Proof.
  split; [apply register_present|].
  split; [apply register_present, register_elem|].
  split; [apply register_NoDup|].
  split; [intros evs ident; apply registerAll_NoDup; simpl; apply NoDup_nil_2|].
  intros Hnd d cur c w p ce Hcur. unfold onFixpoint. rewrite Hcur.
  assert (Hhook : enqueuedOf p (log (emit (Hook d cur) w)) = enqueuedOf p (log w)).
  { simpl. rewrite enqueuedOf_app. simpl. by rewrite app_nil_r. }
  case_bool_decide as Hlen; [rewrite Hhook; lia|].
  destruct (evals w !! p) as [pe|] eqn:Hp.
  - destruct (notifyPeers_queue cur
                (toCommitted (round c) (changed c) (staged c) (nameKey (databaseToName ce db)))
                (evaluations db) (emit (Hook d cur) w) p pe Hp) as (pe' & _ & _ & Hlog).
    rewrite Hlog, Hhook, length_app, length_replicate.
    pose proof (timesIn_NoDup p (evaluations db) Hnd).
    case_bool_decide; lia.
  - (* an address at which there is no evaluation *)
    clear Hnd Hlen. rewrite <- Hhook. clear Hhook.
    assert (Hnone : evals (emit (Hook d cur) w) !! p = None) by done.
    generalize dependent (emit (Hook d cur) w).
    induction (evaluations db) as [|q rest IH]; intros w' Hnone; [simpl; lia|].
    simpl. case_bool_decide; [by apply IH|].
    destruct (decide (q = p)) as [->|Hne].
    + assert (queueAt p (commitItem
        (toCommitted (round c) (changed c) (staged c) (nameKey (databaseToName ce db)))) w' = w') as ->
        by (unfold queueAt; by rewrite Hnone).
      by apply IH.
    + destruct (queueAt_other p q (commitItem
        (toCommitted (round c) (changed c) (staged c) (nameKey (databaseToName ce db)))) w') as [E1 E2]; [done|].
      etrans; [apply IH; by rewrite E1|]. rewrite E2. lia.
Qed.

(** C9: [Database.onFixpoint] pushes commits on its peers only when the
    delta of this database is not empty. With an empty delta no evaluation
    and no queue changes; otherwise the queue of every evaluation other than
    the current one grows by one [Commit] item, carrying that non-empty
    delta, for each time it is in the list of the database, and the queue
    of the current one does not change. *)
Theorem onFixpoint_peers (d : nat) (db : Database) (cur : nat) (c : Changes)
    (w : World) (ce : Evaluation) :
  evals w !! cur = Some ce ->
  let commit := toCommitted (round c) (changed c) (staged c)
                  (nameKey (databaseToName ce db)) in
  let w' := onFixpoint d db cur c w in
  (commit = [] ->
     evals w' = evals w /\ forall p, enqueuedOf p (log w') = enqueuedOf p (log w))
  /\ (commit <> [] ->
      forall (p : nat) (pe : Evaluation),
        evals w !! p = Some pe ->
        let n := if bool_decide (p = cur) then 0%nat else timesIn p (evaluations db) in
        exists pe',
          evals w' !! p = Some pe'
          /\ evaluationQueue pe' = evaluationQueue pe ++ replicate n (armed (commitItem commit))
          /\ enqueuedOf p (log w') = enqueuedOf p (log w) ++ replicate n (armed (commitItem commit))).
Proof.
  intros Hcur commit w'. subst w'. unfold onFixpoint. rewrite Hcur. fold commit.
  assert (Hhook : forall p, enqueuedOf p (log (emit (Hook d cur) w)) = enqueuedOf p (log w)).
  { intros p. simpl. rewrite enqueuedOf_app. simpl. by rewrite app_nil_r. }
  split.
  - intros ->. simpl. split; [done|]. exact Hhook.
  - intros Hne p pe Hp.
    rewrite bool_decide_eq_false_2; [|by destruct commit].
    destruct (notifyPeers_queue cur commit (evaluations db) (emit (Hook d cur) w) p pe Hp)
      as (pe' & H1 & H2 & H3).
    exists pe'. rewrite Hhook in H3. done.
Qed.

(** ** Evaluation.blocksFromCommit *)

Lemma firstWith_skip {A : Type} (f : A -> bool) (pre l : list A) :
  (forall x, x ∈ pre -> f x = false) -> firstWith f (pre ++ l) = firstWith f l.
Proof.
  induction pre as [|x pre IH]; intros Hpre; [reflexivity|].
  simpl. rewrite Hpre; [|by left]. apply IH. intros y Hy. apply Hpre. by right.
Qed.

Lemma cachedTags_spec (view : IndexView) (commit : list Value)
    (pre rest : list nat) (ix : nat) (s : Scan) :
  commitIndices (length commit) = pre ++ ix :: rest ->
  cacheOk view commit s -> visited commit pre s ->
  fst (cachedTags view (at_ commit (ix + 1)) s) = tagsFor view commit (at_ commit (ix + 1))
  /\ cacheOk view commit (snd (cachedTags view (at_ commit (ix + 1)) s))
  /\ visited commit (pre ++ [ix]) (snd (cachedTags view (at_ commit (ix + 1)) s))
  /\ grows s (snd (cachedTags view (at_ commit (ix + 1)) s))
  /\ checks (snd (cachedTags view (at_ commit (ix + 1)) s)) = checks s.
Proof.
  intros Hpl (Hc1 & Hc2 & Hc3) Hvis. unfold cachedTags, tagsFor.
  destruct (tagsCache s !! propertyKey (at_ commit (ix + 1))) as [t|] eqn:Hlk; simpl.
  - destruct (Hc1 _ _ Hlk) as (ix0 & Hf & ->). rewrite Hf.
    split; [done|]. split; [done|]. split; [|split; [by intros k Hk|done]].
    intros j Hj. apply elem_of_app in Hj as [Hj|Hj]; [by apply Hvis|].
    apply list_elem_of_singleton in Hj. subst j. by rewrite Hlk.
  - assert (Hfirst : firstPlace commit (propertyKey (at_ commit (ix + 1))) = Some ix).
    { unfold firstPlace. rewrite Hpl. rewrite firstWith_skip.
      - simpl. by rewrite bool_decide_eq_true_2.
      - intros j Hj. apply bool_decide_eq_false_2. intros Heq.
        destruct (Hvis j Hj) as [t Ht]. 
        rewrite Heq in Ht. congruence. }
    rewrite Hfirst. unfold cacheOk, visited, grows. simpl.
    split; [done|]. split; [|split; [|split; [|done]]].
    + split; [|split].
      * intros k t Hk. destruct (decide (k = propertyKey (at_ commit (ix + 1)))) as [->|Hne].
        -- rewrite lookup_insert_eq in Hk. inversion Hk; subst. eauto.
        -- rewrite lookup_insert_ne in Hk; [|done]. by apply Hc1.
      * rewrite fmap_app. apply NoDup_app. split; [done|]. split; [|apply NoDup_singleton].
        intros k Hk Hk'. apply list_elem_of_singleton in Hk'. subst k.
        apply list_elem_of_fmap in Hk as (e' & He' & Hin).
        destruct (Hc3 e' Hin) as [t Ht]. rewrite <- He' in Ht. congruence.
      * intros e' He'. apply elem_of_app in He' as [He'|He'].
        -- destruct (decide (propertyKey e' = propertyKey (at_ commit (ix + 1)))) as [Heq|Hne].
           ++ rewrite Heq, lookup_insert_eq. eauto.
           ++ rewrite lookup_insert_ne; [|done]. by apply Hc3.
        -- apply list_elem_of_singleton in He'. subst e'. rewrite lookup_insert_eq. eauto.
    + intros j Hj. apply elem_of_app in Hj as [Hj|Hj].
      * destruct (decide (propertyKey (at_ commit (j + 1)) = propertyKey (at_ commit (ix + 1)))) as [Heq|Hne].
        -- rewrite Heq, lookup_insert_eq. eauto.
        -- rewrite lookup_insert_ne; [|done]. by apply Hvis.
      * apply list_elem_of_singleton in Hj. subst j. rewrite lookup_insert_eq. eauto.
    + intros k Hk. destruct (decide (k = propertyKey (at_ commit (ix + 1)))) as [->|Hne].
      * rewrite lookup_insert_eq. eauto.
      * by rewrite lookup_insert_ne.
Qed.

Lemma scanChanges_spec (view : IndexView) (commit : list Value) (b : Block) :
  forall (rest pre : list nat) (s : Scan),
    commitIndices (length commit) = pre ++ rest ->
    cacheOk view commit s -> visited commit pre s ->
    fst (scanChanges view b commit rest s) = existsb (firesAt view commit b) rest
    /\ cacheOk view commit (snd (scanChanges view b commit rest s))
    /\ checks (snd (scanChanges view b commit rest s))
       = checks s ++ ((fun ix => (blk_id b, ix)) <$> upToFirst (firesAt view commit b) rest).
Proof.
  induction rest as [|ix rest IH]; intros pre s Hpl Hok Hvis.
  - simpl. by rewrite app_nil_r.
  - destruct (cachedTags_spec view commit pre rest ix s Hpl Hok Hvis)
      as (Htags & Hok1 & Hvis1 & _ & Hchk1).
    simpl. destruct (cachedTags view (at_ commit (ix + 1)) s) as [tags s1].
    simpl in Htags, Hok1, Hvis1, Hchk1. subst tags.
    fold (firesAt view commit b ix).
    set (s2 := mkScan (tagsCache s1) (lookups s1) (checks s1 ++ [(blk_id b, ix)])).
    assert (Hok2 : cacheOk view commit s2) by exact Hok1.
    assert (Hvis2 : visited commit (pre ++ [ix]) s2) by exact Hvis1.
    destruct (firesAt view commit b ix) eqn:Hf; simpl.
    + split; [done|]. split; [done|]. by rewrite Hchk1.
    + destruct (IH (pre ++ [ix]) s2) as (H1 & H2 & H3); [by rewrite <- app_assoc|done..|].
      split; [done|]. split; [done|]. rewrite H3. simpl. rewrite Hchk1.
      by rewrite <- app_assoc.
Qed.

Lemma scanBlocks_spec (view : IndexView) (commit : list Value) :
  forall (bs acc : list Block) (s : Scan),
    cacheOk view commit s ->
    fst (scanBlocks view commit bs acc s)
    = acc ++ filter (fun b => fires view commit b = true)
               (filter (fun b => dormant b = false) bs)
    /\ cacheOk view commit (snd (scanBlocks view commit bs acc s))
    /\ checks (snd (scanBlocks view commit bs acc s))
       = checks s ++ (filter (fun b => dormant b = false) bs ≫= checkedFor view commit).
Proof.
  induction bs as [|b bs IH]; intros acc s Hok.
  - simpl. by rewrite !app_nil_r.
  - simpl. rewrite (filter_cons _ b). destruct (dormant b) eqn:Hd.
    + rewrite decide_False; [|done]. by apply IH.
    + rewrite decide_True; [|done].
      destruct (scanChanges_spec view commit b (commitIndices (length commit)) [] s)
        as (H1 & H2 & H3); [done|done|by intros ix Hix; inversion Hix|].
      destruct (scanChanges view b commit (commitIndices (length commit)) s) as [hit s1].
      simpl in H1, H2, H3. fold (fires view commit b) in H1.
      destruct (IH (if hit then acc ++ [b] else acc) s1 H2) as (G1 & G2 & G3).
      split; [|split; [done|]].
      * rewrite G1, (filter_cons _ b). subst hit.
        destruct (fires view commit b); [rewrite decide_True|rewrite decide_False]; try done.
        by rewrite <- app_assoc.
      * rewrite G3, H3. simpl. unfold checkedFor at 2. by rewrite <- app_assoc.
Qed.

Lemma scanDatabases_spec (w : World) (view : IndexView) (commit : list Value) :
  forall (ds : list nat) (acc : list Block) (s : Scan),
    cacheOk view commit s ->
    let cands := d ← ds;
                 match dbs w !! d with
                 | Some db => if nonExecuting db then []
                              else filter (fun b => dormant b = false) (blocks db)
                 | None => []
                 end in
    fst (scanDatabases w view commit ds acc s)
    = acc ++ filter (fun b => fires view commit b = true) cands
    /\ cacheOk view commit (snd (scanDatabases w view commit ds acc s))
    /\ checks (snd (scanDatabases w view commit ds acc s))
       = checks s ++ (cands ≫= checkedFor view commit).
Proof.
  induction ds as [|d ds IH]; intros acc s Hok.
  - simpl. by rewrite !app_nil_r.
  - simpl. destruct (dbs w !! d) as [db|]; [|by apply IH].
    destruct (nonExecuting db); [by apply IH|].
    destruct (scanBlocks_spec view commit (blocks db) acc s Hok) as (H1 & H2 & H3).
    destruct (scanBlocks view commit (blocks db) acc s) as [acc1 s1].
    simpl in H1, H2, H3.
    destruct (IH acc1 s1 H2) as (G1 & G2 & G3).
    split; [|split; [done|]].
    + rewrite G1, H1, filter_app. by rewrite <- app_assoc.
    + rewrite G3, H3, bind_app. by rewrite <- app_assoc.
Qed.

Lemma cacheOk_empty (view : IndexView) (commit : list Value) :
  cacheOk view commit emptyScan.
Proof.
  split; [|split].
  - intros k t Hk. unfold emptyScan in Hk. simpl in Hk. by rewrite lookup_empty in Hk.
  - simpl. apply NoDup_nil_2.
  - intros e He. inversion He.
Qed.


(** ** The end of a fixpoint *)

Lemma roundsOf_app (a : nat) (l1 l2 : list Event) :
  roundsOf a (l1 ++ l2) = roundsOf a l1 ++ roundsOf a l2.
Proof. apply omap_app. Qed.

Lemma startedOf_app (a : nat) (l1 l2 : list Event) :
  startedOf a (l1 ++ l2) = startedOf a l1 ++ startedOf a l2.
Proof. apply omap_app. Qed.

Lemma stagingOf_app (a : nat) (l1 l2 : list Event) :
  stagingOf a (l1 ++ l2) = stagingOf a l1 ++ stagingOf a l2.
Proof. apply omap_app. Qed.

Lemma hooksOf_app (a : nat) (l1 l2 : list Event) :
  hooksOf a (l1 ++ l2) = hooksOf a l1 ++ hooksOf a l2.
Proof. apply omap_app. Qed.

Lemma traffic_silent (a : nat) (l : list Event) :
  Forall (fun ev => isTraffic ev = true) l ->
  roundsOf a l = [] /\ startedOf a l = [] /\ stagingOf a l = []
  /\ List.filter isDivergenceReport l = [].
Proof.
  induction 1 as [|ev l Hev _ IH]; [done|].
  destruct IH as (H1 & H2 & H3 & H4).
  destruct ev; try discriminate; simpl; unfold roundsOf, startedOf, stagingOf in *;
    simpl; rewrite ?H1, ?H2, ?H3, ?H4; done.
Qed.

Lemma queueAt_log (p : nat) (item : QueuedEvaluation) (w : World) :
  exists sfx, log (queueAt p item w) = log w ++ sfx
              /\ Forall (fun ev => isTraffic ev = true) sfx
              /\ forall a, hooksOf a sfx = [].
Proof.
  unfold queueAt. destruct (evals w !! p).
  - exists [Enqueued p (armed item)]. simpl. repeat split; try done.
    by apply Forall_singleton.
  - exists []. rewrite app_nil_r. repeat split; done.
Qed.

Lemma notifyPeers_log (cur : nat) (commit : list Value) (peers : list nat) (w : World) :
  exists sfx, log (notifyPeers cur commit peers w) = log w ++ sfx
              /\ Forall (fun ev => isTraffic ev = true) sfx
              /\ forall a, hooksOf a sfx = [].
Proof.
  revert w. induction peers as [|q rest IH]; intros w.
  - exists []. by rewrite app_nil_r.
  - simpl. case_bool_decide; [apply IH|].
    destruct (queueAt_log q (commitItem commit) w) as (s1 & E1 & F1 & K1).
    destruct (IH (queueAt q (commitItem commit) w)) as (s2 & E2 & F2 & K2).
    exists (s1 ++ s2). rewrite E2, E1, <- app_assoc. split; [done|].
    split; [by apply Forall_app|]. intros a.
    by rewrite hooksOf_app, K1, K2.
Qed.

Lemma onFixpoint_log (d : nat) (db : Database) (a : nat) (c : Changes) (w : World) :
  exists sfx, log (onFixpoint d db a c w) = log w ++ sfx
              /\ Forall (fun ev => isTraffic ev = true) sfx
              /\ hooksOf a sfx = [d].
Proof.
  unfold onFixpoint.
  assert (Hbase : exists sfx, log (emit (Hook d a) w) = log w ++ sfx
              /\ Forall (fun ev => isTraffic ev = true) sfx /\ hooksOf a sfx = [d]).
  { exists [Hook d a]. simpl. split; [done|]. split; [by apply Forall_singleton|].
    by rewrite bool_decide_eq_true_2. }
  destruct (evals w !! a); [|done]. case_bool_decide; [done|].
  destruct (notifyPeers_log a
      (toCommitted (round c) (changed c) (staged c) (nameKey (databaseToName e db)))
      (evaluations db) (emit (Hook d a) w)) as (s2 & E2 & F2 & K2).
  exists ([Hook d a] ++ s2). rewrite E2. simpl. rewrite <- app_assoc. split; [done|].
  split; [by apply Forall_cons|].
  rewrite K2. by rewrite bool_decide_eq_true_2.
Qed.

Lemma onFixpoint_frame (d : nat) (db : Database) (a : nat) (c : Changes) (w : World) :
  dbs (onFixpoint d db a c w) = dbs w
  /\ store (onFixpoint d db a c w) = store w
  /\ evals (onFixpoint d db a c w) !! a = evals w !! a.
Proof.
  unfold onFixpoint. destruct (evals w !! a) as [e|] eqn:Ha; [|done].
  case_bool_decide; [done|].
  destruct (notifyPeers_frame a
      (toCommitted (round c) (changed c) (staged c) (nameKey (databaseToName e db)))
      (evaluations db) (emit (Hook d a) w)) as (H1 & H2 & H3).
  rewrite H1, H2, H3. done.
Qed.

Lemma notifyDatabases_cons (a : nat) (c : Changes) (d : nat) (ds : list nat) (w : World) :
  notifyDatabases a c (d :: ds) w
  = notifyDatabases a c ds (match dbs w !! d with
                            | Some db => onFixpoint d db a c w
                            | None => w
                            end).
Proof. reflexivity. Qed.

Lemma notifyDatabases_spec (a : nat) (c : Changes) (ds : list nat) (w : World) :
  dbs (notifyDatabases a c ds w) = dbs w
  /\ store (notifyDatabases a c ds w) = store w
  /\ evals (notifyDatabases a c ds w) !! a = evals w !! a
  /\ exists sfx, log (notifyDatabases a c ds w) = log w ++ sfx
                 /\ Forall (fun ev => isTraffic ev = true) sfx
                 /\ hooksOf a sfx = filter (fun d => is_Some (dbs w !! d)) ds.
Proof.
  revert w. induction ds as [|d ds IH]; intros w.
  - simpl. repeat split; try done. exists []. by rewrite app_nil_r.
  - rewrite notifyDatabases_cons, filter_cons.
    destruct (dbs w !! d) as [db|] eqn:Hd.
    + destruct (onFixpoint_frame d db a c w) as (F1 & F2 & F3).
      destruct (onFixpoint_log d db a c w) as (s1 & E1 & T1 & K1).
      destruct (IH (onFixpoint d db a c w)) as (G1 & G2 & G3 & s2 & E2 & T2 & K2).
      rewrite G1, G2, G3, F1, F2, F3. repeat split; try done.
      exists (s1 ++ s2). rewrite E2, E1, <- app_assoc. split; [done|].
      split; [by apply Forall_app|]. rewrite decide_True; [|by eexists].
      rewrite hooksOf_app, K1, K2, F1. done.
    + destruct (IH w) as (G1 & G2 & G3 & s2 & E2 & T2 & K2).
      repeat split; try done. exists s2. rewrite decide_False; [done|].
      intros [? ?]; congruence.
Qed.

Lemma invoke_spec (a : nat) (item : QueuedEvaluation) (c : Changes) (w : World) (e : Evaluation) :
  evals w !! a = Some e ->
  let w' := match callback item with
            | Some cb => invoke a cb c w
            | None => w
            end in
  is_Some (evals w' !! a)
  /\ dbs w' = dbs w /\ store w' = store w
  /\ log w' = log w ++ callbackEvents item c.
Proof.
  intros He. unfold callbackEvents.
  destruct (callback item) as [[k|inner]|]; simpl.
  - rewrite He. eauto.
  - unfold finished. rewrite He.
    destruct inner as [k|]; simpl; rewrite ?lookup_insert_eq, ?app_nil_r; eauto.
  - rewrite He, app_nil_r. eauto.
Qed.

(** The [else] branch: what it writes, calls and leaves. *)
Lemma settle_spec (a : nat) (e e0 : Evaluation) (item : QueuedEvaluation) (c : Changes)
    (w : World) :
  evals w !! a = Some e0 ->
  errorReporter e0 = errorReporter e ->
  let w' := settle a e item c w in
  slot a w' = None
  /\ is_Some (evals w' !! a)
  /\ dbs w' = dbs w /\ store w' = store w
  /\ exists hp,
       log w' = log w ++ (if MAX_ROUNDS <=? round c then [divergenceReport e] else [])
                      ++ hp ++ callbackEvents item c
       /\ Forall (fun ev => isTraffic ev = true) hp
       /\ hooksOf a hp = filter (fun d => is_Some (dbs w !! d)) (databases e).
Proof.
  intros He0 Hrep. unfold settle.
  set (w1 := if MAX_ROUNDS <=? round c
             then error a "Fixpoint Error" "Evaluation failed to fixpoint" w else w).
  assert (H1 : evals w1 = evals w /\ dbs w1 = dbs w /\ store w1 = store w
               /\ log w1 = log w ++ (if MAX_ROUNDS <=? round c then [divergenceReport e] else [])).
  { subst w1. destruct (MAX_ROUNDS <=? round c); [|by rewrite app_nil_r].
    unfold error, divergenceReport. rewrite He0, Hrep.
    destruct (errorReporter e); done. }
  destruct H1 as (E1 & D1 & S1 & L1).
  destruct (notifyDatabases_spec a c (databases e) w1) as (D2 & S2 & E2 & hp & L2 & T2 & K2).
  set (w2 := notifyDatabases a c (databases e) w1) in *.
  assert (He2 : evals w2 !! a = Some e0) by (by rewrite E2, E1).
  destruct (invoke_spec a item c w2 e0 He2) as ([e3 He3] & D3 & S3 & L3).
  set (w3 := match callback item with Some cb => invoke a cb c w2 | None => w2 end) in *.
  unfold clearCurrent, slot. rewrite He3. simpl. rewrite lookup_insert_eq. simpl.
  split; [done|]. split; [eauto|]. split; [congruence|]. split; [congruence|].
  exists hp. rewrite L3, L2, L1, D1 in *. by rewrite <- !app_assoc.
Qed.

(** ** The fixpoint driver *)

Lemma runBlocks_round (view : IndexView) (bs : list Block) :
  forall (wf : option (gmap string bool)) (wc : option Z) (c : Changes),
    round (runBlocks view bs wf wc c).2.2 = round c.
Proof.
  induction bs as [|b bs IH]; intros wf wc c; [reflexivity|].
  simpl. destruct (isRemote b); [destruct wf|]; try reflexivity; by rewrite IH.
Qed.

Lemma commitChanges_spec (c : Changes) (w : World) :
  round (commitChanges c w).1.1 = round c
  /\ evals (commitChanges c w).2 = evals w
  /\ dbs (commitChanges c w).2 = dbs w
  /\ log (commitChanges c w).2 = log w.
Proof.
  unfold commitChanges.
  by destruct (commitStaged (store w) (round c) (changed c) (staged c)) as [[s' body] delta].
Qed.

Lemma roundsFrom_S (r : Z) (k : nat) :
  roundsFrom r (S k) = (r + 1) :: roundsFrom (r + 1) k.
Proof.
  unfold roundsFrom. simpl. f_equal. rewrite <- fmap_S_seq, <- list_fmap_compose.
  apply list_fmap_ext. intros i x _. simpl. lia.
Qed.

Lemma slot_setItem (a : nat) (item : QueuedEvaluation) (w : World) (e : Evaluation) :
  evals w !! a = Some e ->
  evals (setItem a item w) !! a = Some (setCurrent (Some item) e)
  /\ slot a (setItem a item w) = Some item
  /\ log (setItem a item w) = log w
  /\ dbs (setItem a item w) = dbs w
  /\ store (setItem a item w) = store w.
Proof.
  intros He. unfold slot, setItem. rewrite He. simpl. by rewrite lookup_insert_eq.
Qed.

Lemma settle_log (a : nat) (e : Evaluation) (item : QueuedEvaluation) (c : Changes)
    (hp : list Event) :
  Forall (fun ev => isTraffic ev = true) hp ->
  let sfx := (if MAX_ROUNDS <=? round c then [divergenceReport e] else [])
               ++ hp ++ callbackEvents item c in
  roundsOf a sfx = [] /\ startedOf a sfx = [] /\ stagingOf a sfx = []
  /\ List.filter isDivergenceReport sfx
     = if MAX_ROUNDS <=? round c then [divergenceReport e] else [].
Proof.
  intros Hhp sfx. subst sfx.
  destruct (traffic_silent a hp Hhp) as (H1 & H2 & H3 & H4).
  rewrite !roundsOf_app, !startedOf_app, !stagingOf_app, !List.filter_app, H1, H2, H3, H4.
  assert (Hcb : roundsOf a (callbackEvents item c) = []
                /\ startedOf a (callbackEvents item c) = []
                /\ stagingOf a (callbackEvents item c) = []
                /\ List.filter isDivergenceReport (callbackEvents item c) = []).
  { unfold callbackEvents. destruct (callback item) as [[k|[k|]]|]; done. }
  destruct Hcb as (C1 & C2 & C3 & C4). rewrite C1, C2, C3, C4, !app_nil_r.
  destruct (MAX_ROUNDS <=? round c); [|done].
  unfold divergenceReport. destruct (errorReporter e); done.
Qed.

(** The run of the driver from a slot that holds a change set. *)
Lemma fixpointRound_run :
  forall (fuel a : nat) (bs : list Block) (w : World) (e : Evaluation)
         (item : QueuedEvaluation) (c : Changes),
    evals w !! a = Some e ->
    currentEvaluation e = Some item ->
    changes item = Some c ->
    (Z.to_nat (MAX_ROUNDS - round c) < fuel)%nat ->
    exists (o : Outcome) (k : nat) (sfx : list Event),
      _fixpointRound fuel a bs w = Some o
      /\ log (worldOf o) = log w ++ sfx
      /\ roundsOf a sfx = roundsFrom (round c) k
      /\ (k <= Z.to_nat (MAX_ROUNDS - round c))%nat
      /\ match slot a (worldOf o) with
         | Some item' =>
             exists c', changes item' = Some c' /\ round c' = round c + Z.of_nat k
                        /\ List.filter isDivergenceReport sfx = []
         | None =>
             List.filter isDivergenceReport sfx
             = if MAX_ROUNDS <=? round c + Z.of_nat k then [divergenceReport e] else []
         end.
Proof.
  induction fuel as [|fuel IH]; intros a bs w e item c He Hitem Hc Hfuel; [lia|].
  simpl. rewrite He, Hitem, Hc.
  destruct (changed c && (round c <? MAX_ROUNDS)) eqn:Hguard.
  - apply andb_true_iff in Hguard as [_ Hlt]. apply Z.ltb_lt in Hlt.
    pose proof (runBlocks_round (multiIndex e, store w) bs (waitingFor item) (Some 0)
                  (nextRound c)) as Hround.
    destruct (runBlocks (multiIndex e, store w) bs (waitingFor item) (Some 0) (nextRound c))
      as [ok [[wf wc] c2]]. simpl in Hround.
    set (w1 := emit (NextRound a (round c + 1)) w).
    assert (He1 : evals w1 !! a = Some e) by done.
    destruct ok; [case_bool_decide as Hwc|].
    + (* the round commits and the driver goes on *)
      destruct (commitChanges_spec c2 w1) as (R3 & E3 & _ & L3).
      destruct (commitChanges c2 w1) as [[c3 delta] w2]. simpl in R3, E3, L3.
      set (item3 := setRun wf wc (Some c3) item).
      assert (He2 : evals w2 !! a = Some e) by (by rewrite E3).
      destruct (slot_setItem a item3 w2 e He2) as (S1 & _ & S3 & _).
      set (w3 := emit (Committed a delta) (setItem a item3 w2)).
      destruct (IH a (blocksFromCommit e w3 delta) w3 (setCurrent (Some item3) e) item3 c3)
        as (o & k & sfx & Hrun & Hlog & Hrounds & Hk & Hslot);
        [exact S1|done|done|rewrite R3, Hround; lia|].
      exists o, (S k), ([NextRound a (round c + 1); Committed a delta] ++ sfx).
      split; [exact Hrun|]. split; [|split; [|split]].
      * rewrite Hlog. subst w3. simpl. rewrite S3, L3. subst w1. simpl.
        by rewrite <- !app_assoc.
      * rewrite roundsOf_app, Hrounds, roundsFrom_S, R3, Hround. simpl.
        by rewrite bool_decide_eq_true_2.
      * rewrite R3, Hround in Hk. lia.
      * rewrite List.filter_app. simpl. rewrite R3, Hround in Hslot.
        replace (round c + Z.of_nat (S k)) with (round c + 1 + Z.of_nat k) by lia.
        exact Hslot.
    + (* remote blocks are awaited: the evaluation is parked *)
      destruct (slot_setItem a (setRun wf wc (Some c2) item) w1 e He1) as (_ & S2 & S3 & _).
      exists (Returned (setItem a (setRun wf wc (Some c2) item) w1)), 1%nat,
             [NextRound a (round c + 1)].
      split; [done|]. simpl worldOf. rewrite S2, S3. split; [done|].
      split; [simpl; by rewrite bool_decide_eq_true_2|]. split; [lia|].
      exists c2. simpl. split; [done|]. split; [lia|done].
    + (* a remote block and no [waitingFor]: the TypeError *)
      destruct (slot_setItem a (setRun wf wc (Some c2) item) w1 e He1) as (_ & S2 & S3 & _).
      exists (Thrown (TypeError "Cannot set property of undefined")
                (setItem a (setRun wf wc (Some c2) item) w1)), 1%nat,
             [NextRound a (round c + 1)].
      split; [done|]. simpl worldOf. rewrite S2, S3. split; [done|].
      split; [simpl; by rewrite bool_decide_eq_true_2|]. split; [lia|].
      exists c2. simpl. split; [done|]. split; [lia|done].
  - (* the fixpoint is over *)
    set (item0 := setRun (waitingFor item) (Some 0) (Some c) item).
    destruct (slot_setItem a item0 w e He) as (S1 & _ & S3 & _).
    destruct (settle_spec a e (setCurrent (Some item0) e) item c (setItem a item0 w) S1 eq_refl)
      as (Hslot & _ & _ & _ & hp & Hlog & Hhp & _).
    destruct (settle_log a e item c hp Hhp) as (Q1 & _ & _ & Q4).
    eexists (Returned _), 0%nat, _. split; [reflexivity|]. simpl worldOf.
    rewrite Hslot, Hlog, S3. split; [reflexivity|]. split; [exact Q1|]. split; [lia|].
    rewrite Q4. by rewrite Z.add_0_r.
Qed.




(** ** Draining an Actions item *)

Lemma stagingOf_acted (a : nat) (acts : list Action) (w : World) :
  let w' := foldl (fun w0 _ => emit (Acted a) w0) w acts in
  evals w' = evals w /\ dbs w' = dbs w /\ store w' = store w
  /\ log w' = log w ++ replicate (length acts) (Acted a).
Proof.
  revert w. induction acts as [|act acts IH]; intros w.
  - simpl. by rewrite app_nil_r.
  - simpl. destruct (IH (emit (Acted a) w)) as (H1 & H2 & H3 & H4).
    rewrite H1, H2, H3, H4. simpl. by rewrite <- app_assoc.
Qed.

(** C4: the drain of an Actions item. Every action stages into the change
    set of the item, one after the other; then [commit()] is called, once;
    then [fixpoint] is entered with the committed change set, the block
    set that [blocksFromCommit] computes from the delta of that commit,
    and the closure [finished]. Before the fixpoint is entered the calls
    on the change set are the [execute] of each action followed by the one
    [commit()]. *)
Theorem tick_actions (fuel a : nat) (w : World) (e : Evaluation)
    (queuedItem : QueuedEvaluation) (rest : list QueuedEvaluation)
    (acts : list Action) (c : Changes) :
  evals w !! a = Some e ->
  evaluationQueue e = queuedItem :: rest ->
  q_type queuedItem = Qactions ->
  actions queuedItem = Some acts ->
  changes queuedItem = Some c ->
  let e1 := setQueue rest (pred (ticks e)) e in
  let staged1 := stageActions (multiIndex e, store w) acts c in
  let committed := commitStaged (store w) (round staged1) (changed staged1) (staged staged1) in
  let delta := committed.2 in
  let seed := withBody staged1 committed.1.2 in
  let w4 := mkWorld (<[a := e1]> (evals w)) (dbs w) committed.1.1
              (log w ++ [Started a queuedItem] ++ replicate (length acts) (Acted a)
                     ++ [Committed a delta]) in
  tick fuel a w
  = fixpoint fuel a seed (blocksFromCommit e1 w4 delta)
      (Some (CbFinished (userCallback queuedItem))) w4
  /\ stagingOf a (log w4)
     = stagingOf a (log w) ++ replicate (length acts) None ++ [Some delta].
Proof.
  intros He Hq Hty Hacts Hc e1 staged1 committed delta seed w4.
  split.
  - unfold tick. rewrite He, Hq, Hty, Hacts, Hc. fold e1.
    set (w1 := emit (Started a queuedItem) (setEval a e1 w)).
    destruct (stagingOf_acted a acts w1) as (A1 & A2 & A3 & A4).
    set (w2 := foldl (fun w0 _ => emit (Acted a) w0) w1 acts) in *.
    change (multiIndex e1, store w1) with (multiIndex e, store w). fold staged1.
    unfold commitChanges. rewrite A3. change (store w1) with (store w). fold committed.
    subst seed delta w4. destruct committed as [[s' body] dl]. simpl.
    assert (Hw : emit (Committed a dl) (setStore s' w2)
                 = mkWorld (<[a:=e1]> (evals w)) (dbs w) s'
                     (log w ++ Started a queuedItem :: replicate (length acts) (Acted a) ++ [Committed a dl])).
    { unfold emit, setStore. simpl. rewrite A1, A2, A4. subst w1. simpl.
      by rewrite <- !app_assoc. }
    by rewrite Hw.
  - subst w4. simpl. rewrite (stagingOf_app a (log w)).
    change (Started a queuedItem :: replicate (length acts) (Acted a) ++ [Committed a delta])
      with ([Started a queuedItem] ++ replicate (length acts) (Acted a) ++ [Committed a delta]).
    rewrite !stagingOf_app. simpl. rewrite bool_decide_eq_true_2; [|done]. f_equal. f_equal.
    clear. induction (length acts) as [|n IH]; [done|].
    simpl. rewrite bool_decide_eq_true_2; [|done]. by rewrite <- IH.
Qed.

(** ** The queue discipline *)

Lemma pushesOnly_refl (w : World) : pushesOnly w w.
Proof.
  split; [done|]. intros p pe Hp. exists pe, []. by rewrite !app_nil_r.
Qed.

Lemma pushesOnly_trans (w1 w2 w3 : World) :
  pushesOnly w1 w2 -> pushesOnly w2 w3 -> pushesOnly w1 w3.
Proof.
  intros [D1 P1] [D2 P2]. split; [by intros p Hp; apply D1, D2|].
  intros p pe Hp.
  destruct (P1 p pe Hp) as (pe2 & q1 & E1 & Q1 & L1 & T1).
  destruct (P2 p pe2 E1) as (pe3 & q2 & E2 & Q2 & L2 & T2).
  exists pe3, (q1 ++ q2). rewrite E2, Q2, Q1, L2, L1, T2, T1, !app_assoc. done.
Qed.

Lemma offQueue_silent (p : nat) (ev : Event) (l : list Event) :
  offQueue ev = true ->
  enqueuedOf p (l ++ [ev]) = enqueuedOf p l /\ startedOf p (l ++ [ev]) = startedOf p l.
Proof.
  intros Hev. rewrite enqueuedOf_app, startedOf_app.
  destruct ev; try discriminate; simpl; by rewrite !app_nil_r.
Qed.

(** A step that leaves every queue alone and logs no push and no shift. *)
Lemma pushesOnly_quiet (w w' : World) :
  (forall p, is_Some (evals w' !! p) -> is_Some (evals w !! p)) ->
  (forall p pe, evals w !! p = Some pe ->
     exists pe', evals w' !! p = Some pe' /\ evaluationQueue pe' = evaluationQueue pe) ->
  (forall p, enqueuedOf p (log w') = enqueuedOf p (log w)
             /\ startedOf p (log w') = startedOf p (log w)) ->
  pushesOnly w w'.
Proof.
  intros Hdom Hq Hlog. split; [done|]. intros p pe Hp.
  destruct (Hq p pe Hp) as (pe' & E & Q). destruct (Hlog p) as [L T].
  exists pe', []. by rewrite E, Q, L, T, !app_nil_r.
Qed.

Lemma pushesOnly_emit (ev : Event) (w : World) :
  offQueue ev = true -> pushesOnly w (emit ev w).
Proof.
  intros Hev. apply pushesOnly_quiet; [done|by eauto|].
  intros p. simpl. by apply offQueue_silent.
Qed.

Lemma pushesOnly_setEval (a : nat) (e e' : Evaluation) (w : World) :
  evals w !! a = Some e ->
  evaluationQueue e' = evaluationQueue e ->
  pushesOnly w (setEval a e' w).
Proof.
  intros He Hq. apply pushesOnly_quiet; [| |done].
  - intros p. simpl. destruct (decide (p = a)) as [->|Hne].
    + rewrite He. eauto.
    + by rewrite lookup_insert_ne.
  - intros p pe Hp. simpl. destruct (decide (p = a)) as [->|Hne].
    + rewrite lookup_insert_eq. exists e'. split; [done|]. congruence.
    + rewrite lookup_insert_ne; [|done]. eauto.
Qed.

Lemma pushesOnly_setItem (a : nat) (item : QueuedEvaluation) (w : World) :
  pushesOnly w (setItem a item w).
Proof.
  unfold setItem. destruct (evals w !! a) as [e|] eqn:He; [|apply pushesOnly_refl].
  by apply (pushesOnly_setEval a e).
Qed.

Lemma pushesOnly_clearCurrent (a : nat) (w : World) :
  pushesOnly w (clearCurrent a w).
Proof.
  unfold clearCurrent. destruct (evals w !! a) as [e|] eqn:He; [|apply pushesOnly_refl].
  by apply (pushesOnly_setEval a e).
Qed.

Lemma pushesOnly_setStore (s : Store) (w : World) : pushesOnly w (setStore s w).
Proof. apply pushesOnly_quiet; [done|by eauto|done]. Qed.

Lemma pushesOnly_queueAt (q : nat) (item : QueuedEvaluation) (w : World) :
  pushesOnly w (queueAt q item w).
Proof.
  split.
  - intros p. unfold queueAt. destruct (evals w !! q) eqn:Hq; [|done].
    simpl. destruct (decide (p = q)) as [->|Hne].
    + rewrite Hq. eauto.
    + by rewrite lookup_insert_ne.
  - intros p pe Hp. destruct (decide (p = q)) as [->|Hne].
    + destruct (queueAt_same q item w pe Hp) as [E L].
      exists (queue item pe), [armed item]. rewrite E, L, queue_evaluationQueue.
      repeat split; try done. unfold queueAt. rewrite Hp. simpl.
      rewrite startedOf_app. simpl. by rewrite app_nil_r.
    + destruct (queueAt_other p q item w Hne) as [E L].
      exists pe, []. rewrite E, L, !app_nil_r. repeat split; try done.
      unfold queueAt. destruct (evals w !! q); [|done]. simpl.
      rewrite startedOf_app. simpl. by rewrite app_nil_r.
Qed.

Lemma pushesOnly_notifyPeers (cur : nat) (commit : list Value) (peers : list nat) (w : World) :
  pushesOnly w (notifyPeers cur commit peers w).
Proof.
  revert w. induction peers as [|q rest IH]; intros w; [apply pushesOnly_refl|].
  simpl. case_bool_decide; [apply IH|].
  eapply pushesOnly_trans; [apply pushesOnly_queueAt|apply IH].
Qed.

Lemma pushesOnly_onFixpoint (d : nat) (db : Database) (a : nat) (c : Changes) (w : World) :
  pushesOnly w (onFixpoint d db a c w).
Proof.
  unfold onFixpoint.
  assert (Hhook : pushesOnly w (emit (Hook d a) w)) by (by apply pushesOnly_emit).
  destruct (evals w !! a); [|done]. case_bool_decide; [done|].
  eapply pushesOnly_trans; [exact Hhook|apply pushesOnly_notifyPeers].
Qed.

Lemma pushesOnly_notifyDatabases (a : nat) (c : Changes) (ds : list nat) (w : World) :
  pushesOnly w (notifyDatabases a c ds w).
Proof.
  revert w. induction ds as [|d ds IH]; intros w; [apply pushesOnly_refl|].
  rewrite notifyDatabases_cons. destruct (dbs w !! d) as [db|]; [|apply IH].
  eapply pushesOnly_trans; [apply pushesOnly_onFixpoint|apply IH].
Qed.

Lemma pushesOnly_invoke (a : nat) (cb : Callback) (c : Changes) (w : World) :
  pushesOnly w (invoke a cb c w).
Proof.
  destruct cb as [k|inner]; simpl; [by apply pushesOnly_emit|].
  unfold finished.
  assert (Hfirst : pushesOnly w
            match evals w !! a with
            | Some e => setEval a (if bool_decide (evaluationQueue e = [])
                                   then setQueued false e else processQueue e) w
            | None => w
            end).
  { destruct (evals w !! a) as [e|] eqn:He; [|apply pushesOnly_refl].
    apply (pushesOnly_setEval a e); [done|]. by case_bool_decide. }
  destruct inner as [k|]; [|done].
  eapply pushesOnly_trans; [exact Hfirst|by apply pushesOnly_emit].
Qed.

Lemma pushesOnly_settle (a : nat) (e : Evaluation) (item : QueuedEvaluation)
    (c : Changes) (w : World) :
  pushesOnly w (settle a e item c w).
Proof.
  unfold settle.
  eapply pushesOnly_trans; [|apply pushesOnly_clearCurrent].
  eapply pushesOnly_trans; [|destruct (callback item);
                              [apply pushesOnly_invoke|apply pushesOnly_refl]].
  eapply pushesOnly_trans; [|apply pushesOnly_notifyDatabases].
  destruct (MAX_ROUNDS <=? round c); [|apply pushesOnly_refl].
  unfold error. destruct (evals w !! a) as [e0|]; [|apply pushesOnly_refl].
  destruct (errorReporter e0); by apply pushesOnly_emit.
Qed.

Lemma pushesOnly_commitChanges (c : Changes) (w : World) :
  pushesOnly w (commitChanges c w).2.
Proof.
  unfold commitChanges.
  destruct (commitStaged (store w) (round c) (changed c) (staged c)) as [[s' body] delta].
  apply pushesOnly_setStore.
Qed.

(** The driver pushes on the queues of peers and shifts nothing. *)
Lemma fixpointRound_pushesOnly :
  forall (fuel a : nat) (bs : list Block) (w : World) (o : Outcome),
    _fixpointRound fuel a bs w = Some o -> pushesOnly w (worldOf o).
Proof.
  induction fuel as [|fuel IH]; intros a bs w o Hrun; [discriminate|].
  simpl in Hrun. destruct (evals w !! a) as [e|] eqn:He;
    [|inversion Hrun; apply pushesOnly_refl].
  destruct (currentEvaluation e) as [item|]; [|inversion Hrun; apply pushesOnly_refl].
  destruct (changes item) as [c|]; [|inversion Hrun; apply pushesOnly_setItem].
  destruct (changed c && (round c <? MAX_ROUNDS)).
  - destruct (runBlocks _ bs (waitingFor item) (Some 0) (nextRound c)) as [ok [[wf wc] c2]].
    assert (H1 : pushesOnly w (emit (NextRound a (round c + 1)) w))
      by (by apply pushesOnly_emit).
    destruct ok; [case_bool_decide|].
    + pose proof (pushesOnly_commitChanges c2 (emit (NextRound a (round c + 1)) w)) as H2.
      destruct (commitChanges c2 (emit (NextRound a (round c + 1)) w)) as [[c3 delta] w2].
      simpl in H2. apply IH in Hrun.
      eapply pushesOnly_trans; [|exact Hrun].
      eapply pushesOnly_trans; [exact H1|].
      eapply pushesOnly_trans; [exact H2|].
      eapply pushesOnly_trans; [apply pushesOnly_setItem|by apply pushesOnly_emit].
    + inversion Hrun. simpl.
      eapply pushesOnly_trans; [exact H1|apply pushesOnly_setItem].
    + inversion Hrun. simpl.
      eapply pushesOnly_trans; [exact H1|apply pushesOnly_setItem].
  - inversion Hrun. simpl.
    eapply pushesOnly_trans; [apply pushesOnly_setItem|apply pushesOnly_settle].
Qed.

Lemma fixpoint_pushesOnly (fuel a : nat) (c : Changes) (bs : list Block)
    (cb : option Callback) (w : World) (o : Outcome) :
  fixpoint fuel a c bs cb w = Some o -> pushesOnly w (worldOf o).
Proof.
  unfold fixpoint. destruct (evals w !! a) as [e|] eqn:He;
    [|intros Hrun; inversion Hrun; apply pushesOnly_refl].
  intros Hrun. apply fixpointRound_pushesOnly in Hrun.
  eapply pushesOnly_trans; [|exact Hrun]. by apply (pushesOnly_setEval a e).
Qed.

Lemma fifo_pushesOnly (w w' : World) : fifo w -> pushesOnly w w' -> fifo w'.
Proof.
  intros Hf [Hdom Hp] a e' He'.
  destruct (Hdom a) as [e He]; [by eexists|].
  destruct (Hp a e He) as (pe' & pushed & E & Q & L & T).
  assert (pe' = e') as -> by congruence.
  rewrite L, T, Q, (Hf a e He), app_assoc. done.
Qed.

Lemma pushesOnly_acted (a : nat) (acts : list Action) (w : World) :
  pushesOnly w (foldl (fun w0 _ => emit (Acted a) w0) w acts).
Proof.
  revert w. induction acts as [|act acts IH]; intros w; [apply pushesOnly_refl|].
  simpl. eapply pushesOnly_trans; [|apply IH]. by apply pushesOnly_emit.
Qed.

Lemma fifo_shift (a : nat) (e : Evaluation) (head : QueuedEvaluation)
    (rest : list QueuedEvaluation) (t : nat) (w : World) :
  fifo w ->
  evals w !! a = Some e ->
  evaluationQueue e = head :: rest ->
  fifo (emit (Started a head) (setEval a (setQueue rest t e) w)).
Proof.
  intros Hf He Hq p pe Hp. simpl in Hp |- *.
  rewrite enqueuedOf_app, startedOf_app. simpl. rewrite app_nil_r.
  destruct (decide (p = a)) as [->|Hne].
  - rewrite lookup_insert_eq in Hp. inversion Hp; subst pe. simpl.
    rewrite bool_decide_eq_true_2; [|done].
    rewrite (Hf a e He), Hq, <- app_assoc. done.
  - rewrite lookup_insert_ne in Hp; [|done].
    rewrite bool_decide_eq_false_2; [|congruence].
    rewrite app_nil_r. by apply Hf.
Qed.

Lemma tick_fifo (fuel a : nat) (w : World) (o : Outcome) :
  fifo w -> tick fuel a w = Some o -> fifo (worldOf o).
Proof.
  intros Hf Hrun. unfold tick in Hrun.
  destruct (evals w !! a) as [e|] eqn:He; [|by inversion Hrun].
  destruct (evaluationQueue e) as [|head rest] eqn:Hq.
  - inversion Hrun. simpl. eapply fifo_pushesOnly; [exact Hf|].
    by apply (pushesOnly_setEval a e).
  - pose proof (fifo_shift a e head rest (pred (ticks e)) w Hf He Hq) as Hs.
    set (w1 := emit (Started a head) (setEval a (setQueue rest (pred (ticks e)) e) w)) in *.
    destruct (q_type head).
    + destruct (q_commit head) as [commits|]; [|by inversion Hrun].
      apply fixpoint_pushesOnly in Hrun. by eapply fifo_pushesOnly.
    + destruct (actions head) as [acts|]; [|by inversion Hrun].
      destruct (changes head) as [c|]; [|by inversion Hrun].
      pose proof (pushesOnly_acted a acts w1) as H1.
      set (w2 := foldl (fun w0 _ => emit (Acted a) w0) w1 acts) in *.
      pose proof (pushesOnly_commitChanges
                    (stageActions (multiIndex (setQueue rest (pred (ticks e)) e), store w1) acts c)
                    w2) as H2.
      destruct (commitChanges _ w2) as [[c2 committed] w3]. simpl in H2.
      apply fixpoint_pushesOnly in Hrun.
      eapply fifo_pushesOnly; [exact Hs|].
      eapply pushesOnly_trans; [exact H1|].
      eapply pushesOnly_trans; [exact H2|].
      eapply pushesOnly_trans; [|exact Hrun]. by apply pushesOnly_emit.
    + by inversion Hrun.
Qed.

Lemma pushesOnly_unmark (a : nat) (b : string) (w : World) : pushesOnly w (unmark a b w).
Proof.
  unfold unmark. destruct (evals w !! a) as [e|]; [|apply pushesOnly_refl].
  destruct (currentEvaluation e); [apply pushesOnly_setItem|apply pushesOnly_refl].
Qed.

Lemma onRemoteChanges_pushesOnly (fuel a : nat) (info : RemoteInfo) (w : World) (o : Outcome) :
  onRemoteChanges fuel a info w = Some o -> pushesOnly w (worldOf o).
Proof.
  unfold onRemoteChanges. intros Hrun.
  destruct (evals w !! a) as [e|]; [|inversion Hrun; apply pushesOnly_refl].
  destruct (currentEvaluation e) as [item|]; [|inversion Hrun; apply pushesOnly_refl].
  destruct (waitingFor item) as [m|]; [|inversion Hrun; apply pushesOnly_refl].
  case_bool_decide as Hmark; [|inversion Hrun; apply pushesOnly_refl].
  destruct (changes item) as [c|]; [|inversion Hrun; apply pushesOnly_refl].
  set (c1 := mergeRound c (info_changes info)) in *.
  set (wc := Z.pred <$> waitingCount item) in *.
  set (w1 := setItem a (setRun (Some m) wc (Some c1) item) w) in *.
  assert (P1 : pushesOnly w w1) by apply pushesOnly_setItem.
  case_bool_decide as Hzero.
  - pose proof (pushesOnly_commitChanges c1 w1) as P2.
    destruct (commitChanges c1 w1) as [[c2 delta] w2]. simpl in P2.
    set (w3 := emit (Committed a delta) (setItem a (setRun (Some m) wc (Some c2) item) w2)) in *.
    assert (P3 : pushesOnly w w3).
    { eapply pushesOnly_trans; [exact P1|]. eapply pushesOnly_trans; [exact P2|].
      eapply pushesOnly_trans; [apply pushesOnly_setItem|by apply pushesOnly_emit]. }
    destruct (_fixpointRound fuel a (blocksFromCommit e w3 delta) w3) as [o'|] eqn:Hfix;
      [|discriminate].
    apply fixpointRound_pushesOnly in Hfix.
    destruct o' as [w4|err w4]; inversion Hrun; subst o; simpl in *.
    + eapply pushesOnly_trans; [exact P3|].
      eapply pushesOnly_trans; [exact Hfix|apply pushesOnly_unmark].
    + eapply pushesOnly_trans; [exact P3|exact Hfix].
  - inversion Hrun. simpl. eapply pushesOnly_trans; [exact P1|apply pushesOnly_unmark].
Qed.

(** X16: the order of the queue. In a world where, for every evaluation, the
    items pushed on its queue are the items shifted off it followed by the
    items still in it, this is still so after [queue], after a drain, after
    [onRemoteChanges] and after [fixpoint], of any evaluation; and a drain
    shifts the item at the head of the queue. Items are therefore started
    in the order in which they were enqueued, whatever the drains find in
    the slot. *)
Theorem starts_in_queue_order (w : World) :
  fifo w ->
  (forall a item, fifo (queueAt a item w))
  /\ (forall fuel a o, tick fuel a w = Some o -> fifo (worldOf o))
  /\ (forall fuel a info o, onRemoteChanges fuel a info w = Some o -> fifo (worldOf o))
  /\ (forall fuel a c bs cb o, fixpoint fuel a c bs cb w = Some o -> fifo (worldOf o)).
Proof.
  intros Hf. split; [|split; [|split]].
  - intros a item. eapply fifo_pushesOnly; [exact Hf|apply pushesOnly_queueAt].
  - intros fuel a o. by apply tick_fifo.
  - intros fuel a info o Hrun. eapply fifo_pushesOnly; [exact Hf|].
    by eapply onRemoteChanges_pushesOnly.
  - intros fuel a c bs cb o Hrun. eapply fifo_pushesOnly; [exact Hf|].
    by eapply fixpoint_pushesOnly.
Qed.

(** ** Remote blocks *)

Lemma runBlocks_no_map (view : IndexView) (bs : list Block) :
  forall (wc : option Z) (c : Changes),
    (exists b, b ∈ bs /\ isRemote b = true) ->
    (runBlocks view bs None wc c).1 = false.
Proof.
  induction bs as [|b bs IH]; intros wc c (b' & Hin & Hrem).
  - inversion Hin.
  - simpl. destruct (isRemote b) eqn:Hb; [reflexivity|].
    apply IH. exists b'. split; [|done].
    apply elem_of_cons in Hin as [->|Hin]; [congruence|done].
Qed.

(** [fixpoint] builds the item of the slot as
    [{type, changes, start, callback}], without [waitingFor]. A round whose
    block set holds a remote block therefore stops at
    [evaluation.waitingFor[block.id] = true] with a [TypeError]: nothing is
    committed, the evaluation is not parked, and the slot keeps the item. *)
Lemma fixpoint_remote_throws (fuel a : nat) (c : Changes) (bs : list Block)
    (cb : option Callback) (w : World) (e : Evaluation) :
  evals w !! a = Some e ->
  round c < MAX_ROUNDS ->
  (exists b, b ∈ bs /\ isRemote b = true) ->
  exists w',
    fixpoint (S fuel) a c bs cb w
    = Some (Thrown (TypeError "Cannot set property of undefined") w')
    /\ store w' = store w
    /\ stagingOf a (log w') = stagingOf a (log w)
    /\ exists item, slot a w' = Some item /\ waitingFor item = None.
Proof.
  intros He Hlt Hrem. unfold fixpoint. rewrite He. simpl.
  rewrite lookup_insert_eq. simpl.
  assert ((round c <? MAX_ROUNDS) = true) as -> by (by apply Z.ltb_lt).
  pose proof (runBlocks_no_map (multiIndex e, store w) bs (Some 0)
                (nextRound (mkChanges (round c) true (staged c))) Hrem) as Hok.
  destruct (runBlocks _ bs None (Some 0) _) as [ok [[wf wc] c2]] eqn:Hrb.
  simpl in Hok. subst ok.
  eexists. split; [reflexivity|].
  unfold slot, setItem. simpl. rewrite lookup_insert_eq. simpl. rewrite lookup_insert_eq.
  simpl. split; [done|]. split.
  - rewrite stagingOf_app. simpl. by rewrite app_nil_r.
  - eexists. split; [reflexivity|]. simpl.
    clear -Hrb. revert Hrb. generalize (Some 0). generalize (nextRound (mkChanges (round c) true (staged c))).
    induction bs as [|b bs IH]; intros c0 wc0 Hrb; simpl in Hrb.
    + by inversion Hrb.
    + destruct (isRemote b); [by inversion Hrb|]. by eapply IH.
Qed.

(** ** Evaluation.registerDatabase *)

(** C8: [registerDatabase(name, db)] throws when [name] is registered in
    the evaluation, and the world at the throw is the world before the
    call: the list of databases, the maps [databaseNames] and
    [nameToDatabase], the multi-index and the list of evaluations of the
    database are as they were. *)
Theorem registerDatabase_duplicate (w : World) (a d : nat) (name : string)
    (e : Evaluation) (db : Database) :
  evals w !! a = Some e ->
  dbs w !! d = Some db ->
  is_Some (nameToDatabase e !! name) ->
  exists msg, registerDatabase a name d w = Thrown (JsError msg) w.
Proof.
  intros He Hd Hname. unfold registerDatabase. rewrite He, Hd.
  rewrite bool_decide_eq_true_2; [|done]. eauto.
Qed.

End Properties.

(** * More properties *)

Section Registration.
Context `{Collaborators}.

(** ** Database.unregister *)

Lemma indexOf_None (x : nat) (l : list nat) : indexOf x l = None <-> x ∉ l.
Proof.
  induction l as [|y l IH]; simpl.
  - split; [intros _ Hin; inversion Hin|done].
  - case_bool_decide as Hy.
    + subst y. split; [done|]. intros Hno. exfalso. apply Hno. by left.
    + destruct (indexOf x l) as [i|]; simpl.
      * split; [done|]. intros Hno. exfalso.
        assert (x ∉ l) as Hl by (intros Hin; apply Hno; by right).
        apply IH in Hl. discriminate.
      * split; [|done]. intros _ Hin. apply elem_of_cons in Hin as [->|Hin]; [done|].
        by apply (proj1 IH).
Qed.

Lemma indexOf_app_fresh (x : nat) (l : list nat) :
  x ∉ l -> indexOf x (l ++ [x]) = Some (length l).
Proof.
  induction l as [|y l IH]; intros Hx; simpl.
  - by rewrite bool_decide_eq_true_2.
  - apply not_elem_of_cons in Hx as [Hne Hx].
    rewrite bool_decide_eq_false_2; [|congruence]. by rewrite IH.
Qed.

Lemma delete_last_app (x : nat) (l : list nat) : delete (length l) (l ++ [x]) = l.
Proof. induction l as [|y l IH]; simpl; [done|]. by rewrite IH. Qed.

Lemma indexOf_delete (x : nat) (l : list nat) (i : nat) :
  NoDup l -> indexOf x l = Some i ->
  (x ∉ delete i l) /\ NoDup (delete i l)
  /\ forall y, y <> x -> (y ∈ delete i l <-> y ∈ l).
Proof.
  intros Hnd. revert i. induction Hnd as [|y l Hy Hnd IH]; intros i Hi; [discriminate|].
  simpl in Hi. case_bool_decide as Hyx.
  - inversion Hi; subst. simpl. split; [done|]. split; [done|].
    intros z Hz. rewrite elem_of_cons. split; [by right|]. intros [->|Hin]; done.
  - destruct (indexOf x l) as [j|] eqn:Hj; [|discriminate]. inversion Hi; subst i. simpl.
    destruct (IH j eq_refl) as (H1 & H2 & H3).
    split; [|split].
    + intros Hin. apply elem_of_cons in Hin as [->|Hin]; done.
    + apply NoDup_cons. split; [|done]. intros Hin.
      apply Hy. destruct (decide (y = x)) as [->|Hne]; [done|]. by apply H3.
    + intros z Hz. rewrite !elem_of_cons. rewrite (H3 z Hz). done.
Qed.

(** X1: [Database.unregister] throws exactly when the evaluation is not in
    the list of the database; after [register] of an evaluation that was
    not in the list it gives the database back as it was; and on a list
    without duplicates it leaves a list without duplicates in which the
    evaluation is no more and every other evaluation still is. *)
Theorem unregister_register (db : Database) (evaluation : nat) :
  (unregister evaluation db = None <-> evaluation ∉ evaluations db)
  /\ (evaluation ∉ evaluations db ->
      unregister evaluation (register evaluation db) = Some db)
  /\ (NoDup (evaluations db) ->
      forall db', unregister evaluation db = Some db' ->
        (evaluation ∉ evaluations db') /\ NoDup (evaluations db')
        /\ db_id db' = db_id db /\ blocks db' = blocks db
        /\ forall p, p <> evaluation -> (p ∈ evaluations db' <-> p ∈ evaluations db)).
Proof.
  split; [|split].
  - unfold unregister. rewrite <- indexOf_None.
    destruct (indexOf evaluation (evaluations db)); split; done.
  - intros Hno. unfold register. rewrite bool_decide_eq_false_2; [|done].
    unfold unregister. simpl. rewrite indexOf_app_fresh; [|done].
    rewrite delete_last_app. by destruct db.
  - intros Hnd db' Hun. unfold unregister in Hun.
    destruct (indexOf evaluation (evaluations db)) as [i|] eqn:Hi; [|discriminate].
    inversion Hun; subst db'. simpl.
    destruct (indexOf_delete evaluation (evaluations db) i Hnd Hi) as (H1 & H2 & H3).
    done.
Qed.

(** ** registerDatabase, unregisterDatabase, close *)


Lemma spliceOut_app_fresh (d : nat) (l : list nat) :
  d ∉ l -> spliceOut d (l ++ [d]) = l.
Proof.
  intros Hd. unfold spliceOut. rewrite indexOf_app_fresh; [|done].
  apply delete_last_app.
Qed.


Lemma closeLoop_spec (a : nat) (ds : list nat) :
  forall w : World,
    NoDup ds ->
    (forall d, d ∈ ds -> exists db, dbs w !! d = Some db /\ a ∈ evaluations db) ->
    exists w',
      closeLoop a ds w = Returned w'
      /\ evals w' = evals w /\ store w' = store w /\ log w' = log w
      /\ (forall d, d ∈ ds ->
            exists db db', dbs w !! d = Some db /\ dbs w' !! d = Some db'
                           /\ unregister a db = Some db')
      /\ (forall d, d ∉ ds -> dbs w' !! d = dbs w !! d).
Proof.
  induction ds as [|d ds IH]; intros w Hnd Hall.
  - exists w. repeat split; try done. intros d Hd. inversion Hd.
  - apply NoDup_cons in Hnd as [Hd Hnd].
    destruct (Hall d) as (db & Hdb & Hin); [by left|].
    simpl. rewrite Hdb.
    destruct (unregister a db) as [db'|] eqn:Hun.
    2:{ exfalso. unfold unregister in Hun.
        destruct (indexOf a (evaluations db)) eqn:Hi; [discriminate|].
        by apply indexOf_None in Hi. }
    destruct (IH (setDb d db' w)) as (w' & Hrun & E & S & L & Hin' & Hout); [done| |].
    { intros d2 Hd2. destruct (Hall d2) as (db2 & Hdb2 & Hin2); [by right|].
      exists db2. simpl. rewrite lookup_insert_ne; [done|]. intros ->. done. }
    exists w'. split; [done|]. split; [done|]. split; [done|]. split; [done|]. split.
    + intros d2 Hd2. apply elem_of_cons in Hd2 as [->|Hd2].
      * exists db, db'. split; [done|]. split; [|done].
        rewrite Hout; [|done]. simpl. by rewrite lookup_insert_eq.
      * destruct (Hin' d2 Hd2) as (db2 & db2' & G1 & G2 & G3).
        exists db2, db2'. split; [|done]. simpl in G1.
        rewrite lookup_insert_ne in G1; [done|]. intros ->. done.
    + intros d2 Hd2. apply not_elem_of_cons in Hd2 as [Hne Hd2].
      rewrite Hout; [|done]. simpl. by rewrite lookup_insert_ne.
Qed.

(** X4: [close()] on an evaluation each of whose databases, listed once,
    lists it once. It returns; afterwards none of its databases lists the
    evaluation, every other evaluation is listed as before, the databases
    that are not its own are untouched, and so are the evaluation itself,
    the indexes and the log. A second [close()] throws at the first
    database and changes nothing. *)
Theorem close_unregisters (w : World) (a : nat) (e : Evaluation) :
  evals w !! a = Some e ->
  NoDup (databases e) ->
  (forall d, d ∈ databases e ->
     exists db, dbs w !! d = Some db /\ a ∈ evaluations db /\ NoDup (evaluations db)) ->
  exists w',
    close a w = Returned w'
    /\ evals w' = evals w /\ store w' = store w /\ log w' = log w
    /\ (forall d, d ∈ databases e ->
          exists db db', dbs w !! d = Some db /\ dbs w' !! d = Some db'
                         /\ (a ∉ evaluations db')
                         /\ blocks db' = blocks db
                         /\ forall p, p <> a -> (p ∈ evaluations db' <-> p ∈ evaluations db))
    /\ (forall d, d ∉ databases e -> dbs w' !! d = dbs w !! d)
    /\ (databases e <> [] -> exists err, close a w' = Thrown err w').
Proof.
  intros He Hnd Hall. unfold close at 1. rewrite He.
  destruct (closeLoop_spec a (databases e) w Hnd) as (w' & Hrun & E & S & L & Hin & Hout).
  { intros d Hd. destruct (Hall d Hd) as (db & H1 & H2 & _). eauto. }
  assert (Hgone : forall d, d ∈ databases e ->
            exists db db', dbs w !! d = Some db /\ dbs w' !! d = Some db'
                           /\ (a ∉ evaluations db')
                           /\ blocks db' = blocks db
                           /\ forall p, p <> a -> (p ∈ evaluations db' <-> p ∈ evaluations db)).
  { intros d Hd. destruct (Hin d Hd) as (db & db' & G1 & G2 & G3).
    destruct (Hall d Hd) as (db0 & G4 & _ & Hnd0).
    assert (db0 = db) as -> by congruence.
    exists db, db'. split; [done|]. split; [done|].
    unfold unregister in G3.
    destruct (indexOf a (evaluations db)) as [i|] eqn:Hi; [|discriminate].
    inversion G3; subst db'. simpl.
    destruct (indexOf_delete a (evaluations db) i Hnd0 Hi) as (K1 & _ & K3). done. }
  exists w'. repeat split; try done.
  intros Hne. unfold close. rewrite E, He.
  destruct (databases e) as [|d ds]; [done|].
  destruct (Hgone d) as (db & db' & _ & G2 & G3 & _); [by left|].
  simpl. rewrite G2.
  assert (unregister a db' = None) as ->.
  { unfold unregister. by rewrite (proj2 (indexOf_None a (evaluations db')) G3). }
  eauto.
Qed.

End Registration.

Section Activation.
Context `{Collaborators}.

(** ** blocksFromCommit and getAllBlocks *)

Lemma getAllBlocks_awake (e : Evaluation) (w : World) :
  Forall (fun b => dormant b = false) (getAllBlocks e w).
Proof.
  unfold getAllBlocks. induction (databases e) as [|d ds IH]; [constructor|].
  rewrite bind_cons. apply Forall_app. split; [|exact IH].
  destruct (dbs w !! d) as [db|]; [|constructor].
  destruct (nonExecuting db); [constructor|].
  apply Forall_forall. intros b Hb. by apply list_elem_of_filter in Hb as [Hb _].
Qed.

Lemma blocksFromCommit_filter (e : Evaluation) (w : World) (commit : list Value) :
  blocksFromCommit e w commit
  = filter (fun b => fires (multiIndex e, store w) commit b = true) (getAllBlocks e w).
Proof.
  unfold blocksFromCommit, scanCommit, getAllBlocks.
  destruct (scanDatabases_spec w (multiIndex e, store w) commit (databases e) [] emptyScan
              (cacheOk_empty _ commit)) as (H1 & _ & _).
  exact H1.
Qed.

(** X5: the block set of [blocksFromCommit] is taken from the blocks of
    [getAllBlocks], in their order and none more often than there: no
    dormant block and no block of a database with [nonExecuting] set is in
    it: each of its blocks is a block of a database of the evaluation
    whose flag is not set. The empty commit gives the empty block set. *)
Theorem blocksFromCommit_sublist (e : Evaluation) (w : World) (commit : list Value) :
  blocksFromCommit e w commit `sublist_of` getAllBlocks e w
  /\ Forall (fun b => dormant b = false) (blocksFromCommit e w commit)
  /\ (forall b, b ∈ blocksFromCommit e w commit ->
        exists d db, d ∈ databases e /\ dbs w !! d = Some db
                     /\ nonExecuting db = false /\ b ∈ blocks db)
  /\ blocksFromCommit e w [] = [].
Proof.
  rewrite !blocksFromCommit_filter. split; [apply sublist_filter|]. split; [|split].
  - apply Forall_forall. intros b Hb. apply list_elem_of_filter in Hb as [_ Hb].
    revert b Hb. apply Forall_forall, getAllBlocks_awake.
  - intros b Hb. apply list_elem_of_filter in Hb as [_ Hb].
    unfold getAllBlocks in Hb. apply list_elem_of_bind in Hb as (d & Hb & Hd).
    destruct (dbs w !! d) as [db|] eqn:Hdb; [|inversion Hb].
    destruct (nonExecuting db) eqn:Hne; [inversion Hb|].
    apply list_elem_of_filter in Hb as [_ Hb]. eauto 10.
  - unfold fires. simpl. induction (getAllBlocks e w) as [|b bs IH]; [done|].
    rewrite filter_cons. by rewrite decide_False.
Qed.

End Activation.

(** ** What the operations leave of every evaluation *)

Section Lifting.
Context `{Collaborators}.
Variable R : Evaluation -> Evaluation -> Prop.
Hypothesis R_refl : forall e, R e e.
Hypothesis R_trans : forall e1 e2 e3, R e1 e2 -> R e2 e3 -> R e1 e3.
Hypothesis R_setCurrent : forall x e, R e (setCurrent x e).
Hypothesis R_setQueue : forall q t e, R e (setQueue q t e).
Hypothesis R_setQueued : forall e, R e (setQueued false e).

Lemma lifts_refl (w : World) : lifts R w w.
Proof. split; [done|]. split; [|done]. intros p pe Hp. eauto. Qed.

Lemma lifts_trans (w1 w2 w3 : World) : lifts R w1 w2 -> lifts R w2 w3 -> lifts R w1 w3.
Proof.
  intros (D1 & P1 & B1) (D2 & P2 & B2). split; [by intros p Hp; apply D1, D2|].
  split; [|congruence]. intros p pe Hp.
  destruct (P1 p pe Hp) as (pe2 & E1 & R1). destruct (P2 p pe2 E1) as (pe3 & E2 & R2).
  eauto.
Qed.

Lemma lifts_emit (ev : Event) (w : World) : lifts R w (emit ev w).
Proof. split; [done|]. split; [|done]. intros p pe Hp. eauto. Qed.

Lemma lifts_setStore (s : Store) (w : World) : lifts R w (setStore s w).
Proof. split; [done|]. split; [|done]. intros p pe Hp. eauto. Qed.

Lemma lifts_setEval (a : nat) (e e' : Evaluation) (w : World) :
  evals w !! a = Some e -> R e e' -> lifts R w (setEval a e' w).
Proof.
  intros He Hr. split; [|split; [|done]].
  - intros p. simpl. destruct (decide (p = a)) as [->|Hne].
    + rewrite He. eauto.
    + by rewrite lookup_insert_ne.
  - intros p pe Hp. simpl. destruct (decide (p = a)) as [->|Hne].
    + rewrite lookup_insert_eq. exists e'. split; [done|]. congruence.
    + rewrite lookup_insert_ne; [|done]. eauto.
Qed.

Lemma lifts_setItem (a : nat) (item : QueuedEvaluation) (w : World) :
  lifts R w (setItem a item w).
Proof.
  unfold setItem. destruct (evals w !! a) as [e|] eqn:He; [|apply lifts_refl].
  apply (lifts_setEval a e); [done|apply R_setCurrent].
Qed.

Lemma lifts_clearCurrent (a : nat) (w : World) : lifts R w (clearCurrent a w).
Proof.
  unfold clearCurrent. destruct (evals w !! a) as [e|] eqn:He; [|apply lifts_refl].
  apply (lifts_setEval a e); [done|apply R_setCurrent].
Qed.

Lemma R_queue (item : QueuedEvaluation) (e : Evaluation) : R e (queue item e).
Proof.
  unfold queue. destruct (negb (queued e) && _).
  - eapply R_trans; [apply (R_setQueue (evaluationQueue e) (S (ticks e)))|].
    apply R_setQueue.
  - apply R_setQueue.
Qed.

Lemma lifts_queueAt (q : nat) (item : QueuedEvaluation) (w : World) :
  lifts R w (queueAt q item w).
Proof.
  unfold queueAt. destruct (evals w !! q) as [e|] eqn:He; [|apply lifts_refl].
  eapply lifts_trans; [apply (lifts_setEval q e); [done|apply R_queue]|apply lifts_emit].
Qed.

Lemma lifts_notifyPeers (cur : nat) (commit : list Value) (peers : list nat) (w : World) :
  lifts R w (notifyPeers cur commit peers w).
Proof.
  revert w. induction peers as [|q rest IH]; intros w; [apply lifts_refl|].
  simpl. case_bool_decide; [apply IH|].
  eapply lifts_trans; [apply lifts_queueAt|apply IH].
Qed.

Lemma lifts_onFixpoint (d : nat) (db : Database) (a : nat) (c : Changes) (w : World) :
  lifts R w (onFixpoint d db a c w).
Proof.
  unfold onFixpoint. pose proof (lifts_emit (Hook d a) w) as Hhook.
  destruct (evals w !! a); [|done]. case_bool_decide; [done|].
  eapply lifts_trans; [exact Hhook|apply lifts_notifyPeers].
Qed.

Lemma lifts_notifyDatabases (a : nat) (c : Changes) (ds : list nat) (w : World) :
  lifts R w (notifyDatabases a c ds w).
Proof.
  revert w. induction ds as [|d ds IH]; intros w; [apply lifts_refl|].
  rewrite notifyDatabases_cons. destruct (dbs w !! d) as [db|]; [|apply IH].
  eapply lifts_trans; [apply lifts_onFixpoint|apply IH].
Qed.

Lemma lifts_invoke (a : nat) (cb : Callback) (c : Changes) (w : World) :
  lifts R w (invoke a cb c w).
Proof.
  destruct cb as [k|inner]; simpl; [apply lifts_emit|].
  unfold finished.
  assert (Hfirst : lifts R w
            match evals w !! a with
            | Some e => setEval a (if bool_decide (evaluationQueue e = [])
                                   then setQueued false e else processQueue e) w
            | None => w
            end).
  { destruct (evals w !! a) as [e|] eqn:He; [|apply lifts_refl].
    apply (lifts_setEval a e); [done|]. case_bool_decide; [apply R_setQueued|].
    apply R_setQueue. }
  destruct inner as [k|]; [|done].
  eapply lifts_trans; [exact Hfirst|apply lifts_emit].
Qed.

Lemma lifts_settle (a : nat) (e : Evaluation) (item : QueuedEvaluation)
    (c : Changes) (w : World) :
  lifts R w (settle a e item c w).
Proof.
  unfold settle.
  eapply lifts_trans; [|apply lifts_clearCurrent].
  eapply lifts_trans; [|destruct (callback item); [apply lifts_invoke|apply lifts_refl]].
  eapply lifts_trans; [|apply lifts_notifyDatabases].
  destruct (MAX_ROUNDS <=? round c); [|apply lifts_refl].
  unfold error. destruct (evals w !! a) as [e0|]; [|apply lifts_refl].
  destruct (errorReporter e0); apply lifts_emit.
Qed.

Lemma lifts_commitChanges (c : Changes) (w : World) : lifts R w (commitChanges c w).2.
Proof.
  unfold commitChanges.
  destruct (commitStaged (store w) (round c) (changed c) (staged c)) as [[s' body] delta].
  apply lifts_setStore.
Qed.

Lemma lifts_fixpointRound :
  forall (fuel a : nat) (bs : list Block) (w : World) (o : Outcome),
    _fixpointRound fuel a bs w = Some o -> lifts R w (worldOf o).
Proof.
  induction fuel as [|fuel IH]; intros a bs w o Hrun; [discriminate|].
  simpl in Hrun. destruct (evals w !! a) as [e|] eqn:He;
    [|inversion Hrun; apply lifts_refl].
  destruct (currentEvaluation e) as [item|]; [|inversion Hrun; apply lifts_refl].
  destruct (changes item) as [c|]; [|inversion Hrun; apply lifts_setItem].
  destruct (changed c && (round c <? MAX_ROUNDS)).
  - destruct (runBlocks _ bs (waitingFor item) (Some 0) (nextRound c)) as [ok [[wf wc] c2]].
    pose proof (lifts_emit (NextRound a (round c + 1)) w) as P1.
    destruct ok; [case_bool_decide as Hzero|].
    + pose proof (lifts_commitChanges c2 (emit (NextRound a (round c + 1)) w)) as P2.
      destruct (commitChanges c2 (emit (NextRound a (round c + 1)) w)) as [[c3 delta] w2].
      simpl in P2. apply IH in Hrun.
      eapply lifts_trans; [|exact Hrun].
      eapply lifts_trans; [exact P1|].
      eapply lifts_trans; [exact P2|].
      eapply lifts_trans; [apply lifts_setItem|apply lifts_emit].
    + inversion Hrun. simpl. eapply lifts_trans; [exact P1|apply lifts_setItem].
    + inversion Hrun. simpl. eapply lifts_trans; [exact P1|apply lifts_setItem].
  - inversion Hrun. simpl.
    eapply lifts_trans; [apply lifts_setItem|apply lifts_settle].
Qed.

Lemma lifts_fixpoint (fuel a : nat) (c : Changes) (bs : list Block)
    (cb : option Callback) (w : World) (o : Outcome) :
  fixpoint fuel a c bs cb w = Some o -> lifts R w (worldOf o).
Proof.
  unfold fixpoint. destruct (evals w !! a) as [e|] eqn:He;
    [|intros Hrun; inversion Hrun; apply lifts_refl].
  intros Hrun. apply lifts_fixpointRound in Hrun.
  eapply lifts_trans; [|exact Hrun]. apply (lifts_setEval a e); [done|apply R_setCurrent].
Qed.

Lemma lifts_acted (a : nat) (acts : list Action) (w : World) :
  lifts R w (foldl (fun w0 _ => emit (Acted a) w0) w acts).
Proof.
  revert w. induction acts as [|act acts IH]; intros w; [apply lifts_refl|].
  simpl. eapply lifts_trans; [|apply IH]. apply lifts_emit.
Qed.

Lemma lifts_tick (fuel a : nat) (w : World) (o : Outcome) :
  tick fuel a w = Some o -> lifts R w (worldOf o).
Proof.
  intros Hrun. unfold tick in Hrun.
  destruct (evals w !! a) as [e|] eqn:He; [|inversion Hrun; apply lifts_refl].
  destruct (evaluationQueue e) as [|head rest] eqn:Hq.
  - inversion Hrun. simpl. apply (lifts_setEval a e); [done|apply R_setQueue].
  - assert (Hs : lifts R w (emit (Started a head)
                              (setEval a (setQueue rest (pred (ticks e)) e) w))).
    { eapply lifts_trans; [apply (lifts_setEval a e); [done|apply R_setQueue]|apply lifts_emit]. }
    set (w1 := emit (Started a head) (setEval a (setQueue rest (pred (ticks e)) e) w)) in *.
    destruct (q_type head).
    + destruct (q_commit head) as [commits|]; [|by inversion Hrun].
      apply lifts_fixpoint in Hrun. by eapply lifts_trans.
    + destruct (actions head) as [acts|]; [|by inversion Hrun].
      destruct (changes head) as [c|]; [|by inversion Hrun].
      pose proof (lifts_acted a acts w1) as P1.
      set (w2 := foldl (fun w0 _ => emit (Acted a) w0) w1 acts) in *.
      pose proof (lifts_commitChanges
                    (stageActions (multiIndex (setQueue rest (pred (ticks e)) e), store w1) acts c)
                    w2) as P2.
      destruct (commitChanges _ w2) as [[c2 committed] w3]. simpl in P2.
      apply lifts_fixpoint in Hrun.
      eapply lifts_trans; [exact Hs|].
      eapply lifts_trans; [exact P1|].
      eapply lifts_trans; [exact P2|].
      eapply lifts_trans; [|exact Hrun]. apply lifts_emit.
    + by inversion Hrun.
Qed.

Lemma lifts_unmark (a : nat) (b : string) (w : World) : lifts R w (unmark a b w).
Proof.
  unfold unmark. destruct (evals w !! a) as [e|]; [|apply lifts_refl].
  destruct (currentEvaluation e); [apply lifts_setItem|apply lifts_refl].
Qed.

Lemma lifts_onRemoteChanges (fuel a : nat) (info : RemoteInfo) (w : World) (o : Outcome) :
  onRemoteChanges fuel a info w = Some o -> lifts R w (worldOf o).
Proof.
  unfold onRemoteChanges. intros Hrun.
  destruct (evals w !! a) as [e|]; [|inversion Hrun; apply lifts_refl].
  destruct (currentEvaluation e) as [item|]; [|inversion Hrun; apply lifts_refl].
  destruct (waitingFor item) as [m|]; [|inversion Hrun; apply lifts_refl].
  case_bool_decide as Hmark; [|inversion Hrun; apply lifts_refl].
  destruct (changes item) as [c|]; [|inversion Hrun; apply lifts_refl].
  set (c1 := mergeRound c (info_changes info)) in *.
  set (wc := Z.pred <$> waitingCount item) in *.
  set (w1 := setItem a (setRun (Some m) wc (Some c1) item) w) in *.
  assert (P1 : lifts R w w1) by apply lifts_setItem.
  case_bool_decide as Hzero.
  - pose proof (lifts_commitChanges c1 w1) as P2.
    destruct (commitChanges c1 w1) as [[c2 delta] w2]. simpl in P2.
    set (w3 := emit (Committed a delta) (setItem a (setRun (Some m) wc (Some c2) item) w2)) in *.
    assert (P3 : lifts R w w3).
    { eapply lifts_trans; [exact P1|]. eapply lifts_trans; [exact P2|].
      eapply lifts_trans; [apply lifts_setItem|apply lifts_emit]. }
    destruct (_fixpointRound fuel a (blocksFromCommit e w3 delta) w3) as [o'|] eqn:Hfix;
      [|discriminate].
    apply lifts_fixpointRound in Hfix.
    destruct o' as [w4|err w4]; inversion Hrun; subst o; simpl in *.
    + eapply lifts_trans; [exact P3|].
      eapply lifts_trans; [exact Hfix|apply lifts_unmark].
    + eapply lifts_trans; [exact P3|exact Hfix].
  - inversion Hrun. simpl. eapply lifts_trans; [exact P1|apply lifts_unmark].
Qed.

End Lifting.

Section Frames.
Context `{Collaborators}.

Lemma lifts_back (R : Evaluation -> Evaluation -> Prop) (w w' : World) (p : nat)
    (pe' : Evaluation) :
  lifts R w w' -> evals w' !! p = Some pe' ->
  exists pe, evals w !! p = Some pe /\ R pe pe'.
Proof.
  intros (D & P & _) Hp. destruct (D p) as [pe Hpe]; [by eexists|].
  destruct (P p pe Hpe) as (pe2 & E & Hr). exists pe. split; [done|]. congruence.
Qed.

(** X6: [queued] is never set. In a world in which no evaluation has
    [queued] set (a new evaluation has not), none has after [queue], after
    a drain, after [onRemoteChanges] or after [fixpoint] of any evaluation.
    So [queue] on an evaluation with an empty slot hands a drain callback
    to [nextTick] every time, also when one is pending already. *)
Theorem queued_never_set (w : World) :
  (forall p pe, evals w !! p = Some pe -> queued pe = false) ->
  (forall index, queued (newEvaluation index) = false)
  /\ (forall a item p pe, evals (queueAt a item w) !! p = Some pe -> queued pe = false)
  /\ (forall fuel a o p pe,
        tick fuel a w = Some o -> evals (worldOf o) !! p = Some pe -> queued pe = false)
  /\ (forall fuel a info o p pe,
        onRemoteChanges fuel a info w = Some o ->
        evals (worldOf o) !! p = Some pe -> queued pe = false)
  /\ (forall fuel a c bs cb o p pe,
        fixpoint fuel a c bs cb w = Some o ->
        evals (worldOf o) !! p = Some pe -> queued pe = false)
  /\ (forall a e item,
        evals w !! a = Some e -> currentEvaluation e = None ->
        ticks (queue item e) = S (ticks e)).
Proof.
  intros Hw.
  assert (Hback : forall w' p pe, lifts staysUnqueued w w' ->
                    evals w' !! p = Some pe -> queued pe = false).
  { intros w' p pe Hl Hp. destruct (lifts_back _ w w' p pe Hl Hp) as (pe0 & E & Hr).
    apply Hr. by apply (Hw p). }
  assert (R1 : forall e, staysUnqueued e e) by (intros e Hq; exact Hq).
  assert (R2 : forall e1 e2 e3, staysUnqueued e1 e2 -> staysUnqueued e2 e3 -> staysUnqueued e1 e3)
    by (intros e1 e2 e3 H12 H23 H1; apply H23, H12, H1).
  assert (R3 : forall x e, staysUnqueued e (setCurrent x e)) by (intros x e Hq; exact Hq).
  assert (R4 : forall q t e, staysUnqueued e (setQueue q t e)) by (intros q t e Hq; exact Hq).
  assert (R5 : forall e, staysUnqueued e (setQueued false e)) by (intros e Hq; reflexivity).
  split; [done|]. split; [|split; [|split; [|split]]].
  - intros a item p pe. apply Hback. by apply lifts_queueAt.
  - intros fuel a o p pe Hrun. apply Hback. by eapply lifts_tick.
  - intros fuel a info o p pe Hrun. apply Hback. by eapply lifts_onRemoteChanges.
  - intros fuel a c bs cb o p pe Hrun. apply Hback. by eapply lifts_fixpoint.
  - intros a e item He Hcur. unfold queue. rewrite (Hw a e He), Hcur. reflexivity.
Qed.

(** X7: draining and running fixpoints leaves the registrations alone.
    After [queue], a drain, [onRemoteChanges] or [fixpoint] of any
    evaluation, the databases (their blocks, flags and lists of
    evaluations) are what they were, no evaluation came or went, and every
    evaluation has the multi-index, the list of databases, the two name
    tables and the reporter it had. *)
Theorem tables_kept (w : World) :
  (forall a item, lifts sameTables w (queueAt a item w))
  /\ (forall fuel a o, tick fuel a w = Some o -> lifts sameTables w (worldOf o))
  /\ (forall fuel a info o,
        onRemoteChanges fuel a info w = Some o -> lifts sameTables w (worldOf o))
  /\ (forall fuel a c bs cb o,
        fixpoint fuel a c bs cb w = Some o -> lifts sameTables w (worldOf o)).
Proof.
  assert (R1 : forall e, sameTables e e) by (intros e; repeat split).
  assert (R2 : forall e1 e2 e3, sameTables e1 e2 -> sameTables e2 e3 -> sameTables e1 e3).
  { intros e1 e2 e3 (A1 & A2 & A3 & A4 & A5) (B1 & B2 & B3 & B4 & B5).
    repeat split; congruence. }
  assert (R3 : forall x e, sameTables e (setCurrent x e)) by (intros x e; repeat split).
  assert (R4 : forall q t e, sameTables e (setQueue q t e)) by (intros q t e; repeat split).
  assert (R5 : forall e, sameTables e (setQueued false e)) by (intros e; repeat split).
  split; [|split; [|split]].
  - intros a item. by apply lifts_queueAt.
  - intros fuel a o Hrun. by eapply lifts_tick.
  - intros fuel a info o Hrun. by eapply lifts_onRemoteChanges.
  - intros fuel a c bs cb o Hrun. by eapply lifts_fixpoint.
Qed.

End Frames.

Section LocalPrograms.
Context `{Collaborators}.

(** ** Programs without remote blocks *)

Lemma runBlocks_local (view : IndexView) (bs : list Block) :
  Forall (fun b => isRemote b = false) bs ->
  forall (wf : option (gmap string bool)) (wc : option Z) (c : Changes),
    exists c', runBlocks view bs wf wc c = (true, (wf, wc, c')) /\ round c' = round c.
Proof.
  induction 1 as [|b bs Hb _ IH]; intros wf wc c; [by exists c|].
  simpl. rewrite Hb.
  destruct (IH wf wc (withBody c (blk_execute b view c))) as (c' & Hrun & Hround).
  exists c'. by rewrite Hrun.
Qed.

Lemma getAllBlocks_same (e e' : Evaluation) (w w' : World) :
  databases e' = databases e -> dbs w' = dbs w -> getAllBlocks e' w' = getAllBlocks e w.
Proof. intros Hd Hw. unfold getAllBlocks. by rewrite Hd, Hw. Qed.

Lemma blocksFromCommit_local (e : Evaluation) (w : World) (commit : list Value) :
  Forall (fun b => isRemote b = false) (getAllBlocks e w) ->
  Forall (fun b => isRemote b = false) (blocksFromCommit e w commit).
Proof.
  intros Hall. rewrite blocksFromCommit_filter. apply Forall_forall. intros b Hb.
  apply list_elem_of_filter in Hb as [_ Hb]. revert b Hb. by apply Forall_forall.
Qed.

Lemma traffic_no_call (l : list Event) :
  Forall (fun ev => isTraffic ev = true) l -> List.filter isCalled l = [].
Proof.
  induction 1 as [|ev l Hev _ IH]; [done|]. destruct ev; try discriminate; exact IH.
Qed.

Lemma settle_calls (a : nat) (e : Evaluation) (item : QueuedEvaluation) (c : Changes)
    (hp : list Event) :
  Forall (fun ev => isTraffic ev = true) hp ->
  let sfx := (if MAX_ROUNDS <=? round c then [divergenceReport e] else [])
               ++ hp ++ callbackEvents item c in
  hooksOf a sfx = hooksOf a hp /\ List.filter isCalled sfx = callbackEvents item c.
Proof.
  intros Hhp sfx. subst sfx.
  rewrite !hooksOf_app, !List.filter_app, (traffic_no_call hp Hhp).
  assert (Hrep : hooksOf a (if MAX_ROUNDS <=? round c then [divergenceReport e] else []) = []
                 /\ List.filter isCalled
                      (if MAX_ROUNDS <=? round c then [divergenceReport e] else []) = []).
  { destruct (MAX_ROUNDS <=? round c); [|done].
    unfold divergenceReport. destruct (errorReporter e); done. }
  destruct Hrep as [-> ->].
  assert (Hcb : hooksOf a (callbackEvents item c) = []
                /\ List.filter isCalled (callbackEvents item c) = callbackEvents item c).
  { unfold callbackEvents. destruct (callback item) as [[k|[k|]]|]; done. }
  destruct Hcb as [-> ->]. by rewrite app_nil_r.
Qed.

Lemma onFixpoint_queue (d : nat) (db : Database) (a : nat) (c : Changes) (w : World)
    (ea : Evaluation) (p : nat) (pe : Evaluation) :
  evals w !! a = Some ea -> p <> a -> evals w !! p = Some pe ->
  exists pe',
    evals (onFixpoint d db a c w) !! p = Some pe'
    /\ evaluationQueue pe'
       = evaluationQueue pe
         ++ (let commit := toCommitted (round c) (changed c) (staged c)
                             (nameKey (databaseNames ea !! db_id db)) in
             if bool_decide (length commit = 0%nat) then []
             else replicate (timesIn p (evaluations db)) (armed (commitItem commit))).
Proof.
  intros Ha Hne Hp. unfold onFixpoint. rewrite Ha. unfold databaseToName. simpl.
  case_bool_decide as Hlen.
  - exists pe. by rewrite app_nil_r.
  - destruct (notifyPeers_queue a
                (toCommitted (round c) (changed c) (staged c)
                   (nameKey (databaseNames ea !! db_id db)))
                (evaluations db) (emit (Hook d a) w) p pe Hp) as (pe' & E & Q & _).
    rewrite bool_decide_eq_false_2 in Q; [|done]. eauto.
Qed.

Lemma notifyDatabases_queue (a : nat) (c : Changes) (ea : Evaluation) (p : nat)
    (ds : list nat) :
  forall (w : World) (pe : Evaluation),
    evals w !! a = Some ea -> p <> a -> evals w !! p = Some pe ->
    exists pe',
      evals (notifyDatabases a c ds w) !! p = Some pe'
      /\ evaluationQueue pe'
         = evaluationQueue pe ++ fanOutOver (databaseNames ea) (dbs w) c p ds.
Proof.
  induction ds as [|d ds IH]; intros w pe Ha Hne Hp.
  - exists pe. simpl. by rewrite app_nil_r.
  - rewrite notifyDatabases_cons. unfold fanOutOver. rewrite bind_cons.
    fold (fanOutOver (databaseNames ea) (dbs w) c p ds).
    destruct (dbs w !! d) as [db|] eqn:Hd.
    + destruct (onFixpoint_queue d db a c w ea p pe Ha Hne Hp) as (pe1 & E1 & Q1).
      destruct (onFixpoint_frame d db a c w) as (F1 & _ & F3).
      destruct (IH (onFixpoint d db a c w) pe1) as (pe' & E & Q); [by rewrite F3|done|done|].
      exists pe'. split; [done|]. rewrite Q, Q1, F1, <- app_assoc. done.
    + destruct (IH w pe Ha Hne Hp) as (pe' & E & Q). exists pe'. by rewrite Q.
Qed.

Lemma settle_peer (a : nat) (e e0 : Evaluation) (item : QueuedEvaluation) (c : Changes)
    (w : World) (p : nat) (pe : Evaluation) :
  evals w !! a = Some e0 -> databaseNames e0 = databaseNames e ->
  p <> a -> evals w !! p = Some pe ->
  exists pe',
    evals (settle a e item c w) !! p = Some pe'
    /\ evaluationQueue pe'
       = evaluationQueue pe ++ fanOutOver (databaseNames e) (dbs w) c p (databases e).
Proof.
  intros He0 Hnames Hne Hp. unfold settle.
  set (w1 := if MAX_ROUNDS <=? round c
             then error a "Fixpoint Error" "Evaluation failed to fixpoint" w else w).
  assert (E1 : evals w1 = evals w /\ dbs w1 = dbs w).
  { subst w1. destruct (MAX_ROUNDS <=? round c); [|done].
    unfold error. rewrite He0. by destruct (errorReporter e0). }
  destruct E1 as [E1 D1].
  destruct (notifyDatabases_queue a c e0 p (databases e) w1 pe) as (pe' & E2 & Q2);
    [by rewrite E1|done|by rewrite E1|].
  destruct (notifyDatabases_spec a c (databases e) w1) as (_ & _ & E3 & _).
  set (w2 := notifyDatabases a c (databases e) w1) in *.
  assert (E4 : evals (match callback item with
                      | Some cb => invoke a cb c w2
                      | None => w2
                      end) !! p = Some pe').
  { destruct (callback item) as [[k|inner]|]; simpl; [done| |done].
    unfold finished. rewrite E3, E1, He0.
    destruct inner; simpl; by rewrite lookup_insert_ne. }
  exists pe'. split; [|by rewrite Q2, Hnames, D1].
  set (w3 := match callback item with Some cb => invoke a cb c w2 | None => w2 end) in *.
  unfold clearCurrent.
  destruct (evals w3 !! a) as [e3|]; [|exact E4]. simpl.
  rewrite lookup_insert_ne; [exact E4|done].
Qed.

(** The driver on local blocks only: it runs to the end. *)
Lemma fixpointRound_local :
  forall (fuel a : nat) (bs : list Block) (w : World) (e : Evaluation)
         (item : QueuedEvaluation) (c : Changes),
    evals w !! a = Some e ->
    currentEvaluation e = Some item ->
    changes item = Some c ->
    Forall (fun b => isRemote b = false) (getAllBlocks e w) ->
    Forall (fun b => isRemote b = false) bs ->
    (Z.to_nat (MAX_ROUNDS - round c) < fuel)%nat ->
    exists (w' : World) (k : nat) (cfin : Changes) (sfx : list Event),
      _fixpointRound fuel a bs w = Some (Returned w')
      /\ slot a w' = None
      /\ dbs w' = dbs w
      /\ log w' = log w ++ sfx
      /\ roundsOf a sfx = roundsFrom (round c) k
      /\ length (stagingOf a sfx) = k
      /\ round cfin = round c + Z.of_nat k
      /\ hooksOf a sfx = filter (fun d => is_Some (dbs w !! d)) (databases e)
      /\ List.filter isCalled sfx = callbackEvents item cfin
      /\ (changed c = true -> round c < MAX_ROUNDS -> (1 <= k)%nat)
      /\ (forall p pe, p <> a -> evals w !! p = Some pe ->
            exists pe',
              evals w' !! p = Some pe'
              /\ evaluationQueue pe'
                 = evaluationQueue pe
                   ++ fanOutOver (databaseNames e) (dbs w) cfin p (databases e)).
Proof.
  induction fuel as [|fuel IH]; intros a bs w e item c He Hitem Hc Hall Hbs Hfuel; [lia|].
  simpl. rewrite He, Hitem, Hc.
  destruct (changed c && (round c <? MAX_ROUNDS)) eqn:Hguard.
  - apply andb_true_iff in Hguard as [_ Hlt]. apply Z.ltb_lt in Hlt.
    destruct (runBlocks_local (multiIndex e, store w) bs Hbs (waitingFor item) (Some 0)
                (nextRound c)) as (c2 & Hrb & Hround).
    rewrite Hrb. simpl in Hround. rewrite bool_decide_eq_true_2; [|done].
    set (w1 := emit (NextRound a (round c + 1)) w).
    destruct (commitChanges_spec c2 w1) as (R3 & E3 & D3 & L3).
    destruct (commitChanges c2 w1) as [[c3 delta] w2]. simpl in R3, E3, D3, L3.
    set (item3 := setRun (waitingFor item) (Some 0) (Some c3) item).
    assert (He2 : evals w2 !! a = Some e) by (by rewrite E3).
    destruct (slot_setItem a item3 w2 e He2) as (S1 & _ & S3 & S4 & _).
    set (w3 := emit (Committed a delta) (setItem a item3 w2)).
    assert (Hdbs3 : dbs w3 = dbs w) by (subst w3; simpl; by rewrite S4, D3).
    destruct (IH a (blocksFromCommit e w3 delta) w3 (setCurrent (Some item3) e) item3 c3)
      as (w' & k & cfin & sfx & Hrun & Hslot & Hdbs & Hlog & Hrounds & Hcommits & Hfin
          & Hhooks & Hcalls & _ & Hpeers);
      [exact S1|done|done| | |rewrite R3, Hround; lia|].
    { by rewrite (getAllBlocks_same e _ w w3). }
    { apply blocksFromCommit_local. by rewrite (getAllBlocks_same e e w w3). }
    exists w', (S k), cfin, ([NextRound a (round c + 1); Committed a delta] ++ sfx).
    split; [exact Hrun|]. split; [done|]. split; [congruence|].
    split; [|split; [|split; [|split; [|split; [|split; [|split]]]]]].
    + rewrite Hlog. subst w3. simpl. rewrite S3, L3. subst w1. simpl.
      by rewrite <- !app_assoc.
    + rewrite roundsOf_app, Hrounds, roundsFrom_S, R3, Hround. simpl.
      by rewrite bool_decide_eq_true_2.
    + rewrite stagingOf_app, length_app, Hcommits. simpl.
      by rewrite bool_decide_eq_true_2.
    + rewrite Hfin, R3, Hround. simpl. lia.
    + rewrite hooksOf_app, Hhooks, Hdbs3. done.
    + rewrite List.filter_app. simpl. exact Hcalls.
    + intros _ _. lia.
    + intros p pe Hne Hp. rewrite <- Hdbs3. apply Hpeers; [done|].
      subst w3. simpl. unfold setItem. rewrite He2. simpl.
      rewrite lookup_insert_ne; [|done]. by rewrite E3.
  - set (item0 := setRun (waitingFor item) (Some 0) (Some c) item).
    destruct (slot_setItem a item0 w e He) as (S1 & _ & S3 & S4 & _).
    destruct (settle_spec a e (setCurrent (Some item0) e) item c (setItem a item0 w) S1 eq_refl)
      as (Hslot & _ & Hdbs & _ & hp & Hlog & Hhp & Hhooks).
    destruct (settle_log a e item c hp Hhp) as (Q1 & _ & Q3 & _).
    destruct (settle_calls a e item c hp Hhp) as (Q5 & Q6).
    eexists _, 0%nat, c, _. split; [reflexivity|]. split; [exact Hslot|].
    split; [by rewrite Hdbs, S4|]. rewrite Hlog, S3. split; [reflexivity|].
    split; [exact Q1|]. split; [by rewrite Q3|]. split; [lia|].
    split; [by rewrite Q5, Hhooks, S4|]. split; [exact Q6|].
    split; [intros Hch Hlt; apply Z.ltb_lt in Hlt; rewrite Hch, Hlt in Hguard; discriminate|].
    intros p pe Hne Hp.
    destruct (settle_peer a e (setCurrent (Some item0) e) item c (setItem a item0 w) p pe)
      as (pe' & E & Q); [exact S1|done|done| |].
    { unfold setItem. rewrite He. simpl. by rewrite lookup_insert_ne. }
    exists pe'. split; [done|]. by rewrite Q, S4.
Qed.

(** X8: a program without remote blocks always reaches the end of its
    fixpoint. When no block of the evaluation is remote, [fixpoint] on any
    change set and any block set taken from those blocks returns without a
    throw and without parking: the slot is empty. It runs [k] rounds and
    commits once in each, at least one round when the counter was below the
    cap (for [fixpoint] sets [changed]); it then calls [onFixpoint] of every
    database of the evaluation once, in order, and the callback, when it is
    given one, exactly once, with a change set whose counter is
    [round + k]. *)
Theorem local_fixpoint_completes (fuel a : nat) (c : Changes) (bs : list Block)
    (cb : option Callback) (w : World) (e : Evaluation) :
  evals w !! a = Some e ->
  Forall (fun b => isRemote b = false) (getAllBlocks e w) ->
  Forall (fun b => isRemote b = false) bs ->
  (Z.to_nat (MAX_ROUNDS - round c) < fuel)%nat ->
  exists (w' : World) (k : nat) (cfin : Changes) (sfx : list Event),
    fixpoint fuel a c bs cb w = Some (Returned w')
    /\ slot a w' = None
    /\ log w' = log w ++ sfx
    /\ roundsOf a sfx = roundsFrom (round c) k
    /\ length (stagingOf a sfx) = k
    /\ round cfin = round c + Z.of_nat k
    /\ (round c < MAX_ROUNDS -> (1 <= k)%nat)
    /\ hooksOf a sfx = filter (fun d => is_Some (dbs w !! d)) (databases e)
    /\ List.filter isCalled sfx
       = match cb with
         | Some (CbUser u) | Some (CbFinished (Some u)) => [Called u cfin]
         | _ => []
         end.
Proof.
  intros He Hall Hbs Hfuel. unfold fixpoint. rewrite He.
  set (c1 := mkChanges (round c) true (staged c)).
  set (item := mkQueued Qchanges None None (Some c1) cb None None).
  set (w0 := setEval a (setCurrent (Some item) e) w).
  destruct (fixpointRound_local fuel a bs w0 (setCurrent (Some item) e) item c1)
    as (w' & k & cfin & sfx & Hrun & Hslot & _ & Hlog & Hrounds & Hcommits & Hfin
        & Hhooks & Hcalls & Hone & _);
    [by subst w0; simpl; rewrite lookup_insert_eq|done|done|exact Hall|exact Hbs|exact Hfuel|].
  exists w', k, cfin, sfx. split; [exact Hrun|]. split; [exact Hslot|].
  split; [exact Hlog|]. split; [exact Hrounds|]. split; [exact Hcommits|].
  split; [exact Hfin|]. split; [intros Hlt; by apply Hone|].
  split; [exact Hhooks|]. exact Hcalls.
Qed.

(** X15: what a fixpoint sends to its peers. When a program without
    remote blocks has run its fixpoint, every other evaluation has on its
    queue, after what was there, the Commit items of the hooks: for each
    database of the evaluation that ran, in the order of its list, one item
    with the delta of that database in the final change set when the delta
    is not empty and the peer is in the list of the database, and nothing
    otherwise. The final change set is the one the callback is called
    with. Nothing of the rounds before the last reaches a peer. *)
Theorem fixpoint_fans_out (fuel a : nat) (c : Changes) (bs : list Block)
    (cb : option Callback) (w : World) (e : Evaluation) (p : nat) (pe : Evaluation) :
  evals w !! a = Some e ->
  Forall (fun b => isRemote b = false) (getAllBlocks e w) ->
  Forall (fun b => isRemote b = false) bs ->
  (Z.to_nat (MAX_ROUNDS - round c) < fuel)%nat ->
  p <> a ->
  evals w !! p = Some pe ->
  exists (w' : World) (k : nat) (cfin : Changes) (pe' : Evaluation) (sfx : list Event),
    fixpoint fuel a c bs cb w = Some (Returned w')
    /\ round cfin = round c + Z.of_nat k
    /\ log w' = log w ++ sfx
    /\ List.filter isCalled sfx
       = match cb with
         | Some (CbUser u) | Some (CbFinished (Some u)) => [Called u cfin]
         | _ => []
         end
    /\ evals w' !! p = Some pe'
    /\ evaluationQueue pe'
       = evaluationQueue pe ++ fanOutOver (databaseNames e) (dbs w) cfin p (databases e).
Proof.
  intros He Hall Hbs Hfuel Hne Hp. unfold fixpoint. rewrite He.
  set (c1 := mkChanges (round c) true (staged c)).
  set (item := mkQueued Qchanges None None (Some c1) cb None None).
  set (w0 := setEval a (setCurrent (Some item) e) w).
  destruct (fixpointRound_local fuel a bs w0 (setCurrent (Some item) e) item c1)
    as (w' & k & cfin & sfx & Hrun & _ & _ & Hlog & _ & _ & Hfin & _ & Hcalls & _ & Hpeers);
    [by subst w0; simpl; rewrite lookup_insert_eq|done|done|exact Hall|exact Hbs|exact Hfuel|].
  destruct (Hpeers p pe Hne) as (pe' & E & Q).
  { subst w0. simpl. by rewrite lookup_insert_ne. }
  exists w', k, cfin, pe', sfx. split; [exact Hrun|]. split; [exact Hfin|].
  split; [exact Hlog|]. split; [exact Hcalls|]. split; [exact E|exact Q].
Qed.

End LocalPrograms.

Section RemoteRounds.
Context `{Collaborators}.

(** ** Rounds with remote blocks, from an item that has its map *)

Lemma markAll_lookup (bs : list Block) :
  forall (m : gmap string bool) (k : string),
    markAll bs m !! k = if bool_decide (k ∈ blk_id <$> bs) then Some true else m !! k.
Proof.
  induction bs as [|b bs IH]; intros m k; [done|].
  unfold markAll. simpl. fold (markAll bs (<[blk_id b := true]> m)). rewrite IH.
  destruct (decide (k ∈ blk_id <$> bs)) as [Hin|Hout].
  - rewrite !bool_decide_eq_true_2; [done|by right|done].
  - rewrite (bool_decide_eq_false_2 _ Hout).
    destruct (decide (k = blk_id b)) as [->|Hne].
    + rewrite lookup_insert_eq. rewrite bool_decide_eq_true_2; [done|by left].
    + rewrite lookup_insert_ne; [|done].
      rewrite bool_decide_eq_false_2; [done|].
      intros Hin. apply elem_of_cons in Hin as [?|?]; done.
Qed.

Lemma runBlocks_marks (view : IndexView) (bs : list Block) :
  forall (m : gmap string bool) (n : Z) (c : Changes),
    exists c',
      runBlocks view bs (Some m) (Some n) c
      = (true, (Some (markAll (remoteOnes bs) m),
                Some (n + Z.of_nat (length (remoteOnes bs))), c'))
      /\ round c' = round c.
Proof.
  induction bs as [|b bs IH]; intros m n c.
  - exists c. simpl. by rewrite Z.add_0_r.
  - simpl. unfold remoteOnes. rewrite filter_cons. destruct (isRemote b) eqn:Hb.
    + rewrite decide_True; [|done].
      destruct (IH (<[blk_id b := true]> m) (Z.succ n) (withBody c (blk_execute b view c)))
        as (c' & Hrun & Hround).
      exists c'. rewrite Hrun. split; [|done]. unfold remoteOnes.
      set (L := filter (fun b0 => isRemote b0 = true) bs).
      replace (n + Z.of_nat (length (b :: L))) with (Z.succ n + Z.of_nat (length L))
        by (simpl length; lia).
      reflexivity.
    + rewrite decide_False; [|discriminate].
      destruct (IH m n (withBody c (blk_execute b view c))) as (c' & Hrun & Hround).
      exists c'. by rewrite Hrun.
Qed.

(** X9: a round that runs remote blocks, from an item that has a
    [waitingFor] map, parks. The driver begins one round, runs every block
    of the set, marks each remote block awaited and counts it, leaves the
    other marks alone, commits nothing, calls neither hook nor callback,
    and returns with the item in the slot: [waitingCount] is the number of
    remote blocks of the set. *)
Theorem round_parks (fuel a : nat) (bs : list Block) (w : World) (e : Evaluation)
    (item : QueuedEvaluation) (c : Changes) (m : gmap string bool) :
  evals w !! a = Some e ->
  currentEvaluation e = Some item ->
  changes item = Some c ->
  waitingFor item = Some m ->
  changed c = true ->
  round c < MAX_ROUNDS ->
  remoteOnes bs <> [] ->
  exists (w' : World) (item' : QueuedEvaluation) (c' : Changes),
    _fixpointRound (S fuel) a bs w = Some (Returned w')
    /\ slot a w' = Some item'
    /\ waitingCount item' = Some (Z.of_nat (length (remoteOnes bs)))
    /\ (forall k, waitingFor item' ≫= (fun m' => m' !! k)
                  = if bool_decide (k ∈ blk_id <$> remoteOnes bs) then Some true else m !! k)
    /\ changes item' = Some c' /\ round c' = round c + 1
    /\ callback item' = callback item
    /\ store w' = store w
    /\ log w' = log w ++ [NextRound a (round c + 1)].
Proof.
  intros He Hitem Hc Hwf Hch Hlt Hrem. simpl. rewrite He, Hitem, Hc, Hch, Hwf.
  assert ((round c <? MAX_ROUNDS) = true) as -> by (by apply Z.ltb_lt).
  simpl.
  destruct (runBlocks_marks (multiIndex e, store w) bs m 0 (nextRound c))
    as (c2 & Hrun & Hround).
  rewrite Hrun. rewrite bool_decide_eq_false_2.
  2:{ intros Heq. inversion Heq as [Hz]. destruct (remoteOnes bs); [done|]. simpl in Hz. lia. }
  set (item' := setRun _ _ (Some c2) item).
  destruct (slot_setItem a item' (emit (NextRound a (round c + 1)) w) e He)
    as (_ & S2 & S3 & _ & S5).
  eexists _, item', c2. split; [reflexivity|]. split; [exact S2|].
  split; [subst item'; simpl; f_equal; lia|].
  split; [intros k; subst item'; simpl; apply markAll_lookup|].
  split; [done|]. split; [exact Hround|]. split; [done|]. split; [exact S5|exact S3].
Qed.

Lemma unmarkAll_cons (b : string) (ids : list string) (m : gmap string bool) :
  unmarkAll (b :: ids) m = unmarkAll ids (<[b := false]> m).
Proof. reflexivity. Qed.

(** X10: deliveries count down. From an item parked with [waitingCount = n]
    whose map marks the blocks of [infos] awaited, the deliveries for
    these blocks, each once and fewer than [n] of them, all return: their
    changes are merged into the change set in the order they arrive, each
    takes one from [waitingCount] and sets the mark of its block to
    [false]; nothing is committed, no round begins, indexes and log are
    untouched, and the item stays in the slot. *)
Theorem deliveries_count_down (fuel a : nat) (infos : list RemoteInfo) :
  forall (w : World) (e : Evaluation) (item : QueuedEvaluation) (c : Changes)
         (m : gmap string bool) (n : Z),
    evals w !! a = Some e ->
    currentEvaluation e = Some item ->
    changes item = Some c ->
    waitingFor item = Some m ->
    waitingCount item = Some n ->
    NoDup (blockId <$> infos) ->
    (forall info, info ∈ infos -> m !! blockId info = Some true) ->
    Z.of_nat (length infos) < n ->
    exists (w' : World) (item' : QueuedEvaluation),
      deliverAll fuel a infos w = Some (Returned w')
      /\ slot a w' = Some item'
      /\ waitingCount item' = Some (n - Z.of_nat (length infos))
      /\ waitingFor item' = Some (unmarkAll (blockId <$> infos) m)
      /\ changes item' = Some (foldl mergeRound c (info_changes <$> infos))
      /\ callback item' = callback item
      /\ store w' = store w /\ log w' = log w /\ dbs w' = dbs w.
Proof.
  induction infos as [|info rest IH]; intros w e item c m n He Hitem Hc Hwf Hwc Hnd Hall Hn.
  - exists w, item. simpl. unfold slot. rewrite He. simpl.
    rewrite Z.sub_0_r. repeat split; done.
  - rewrite fmap_cons in Hnd. apply NoDup_cons in Hnd as [Hfresh Hnd].
    simpl deliverAll. unfold onRemoteChanges. rewrite He, Hitem, Hwf.
    rewrite bool_decide_eq_true_2; [|apply Hall; by left].
    rewrite Hc, Hwc. simpl length in Hn. simpl.
    rewrite bool_decide_eq_false_2; [|intros Heq; inversion Heq; lia].
    set (c1 := mergeRound c (info_changes info)).
    set (item1 := setRun (Some m) (Some (Z.pred n)) (Some c1) item).
    destruct (slot_setItem a item1 w e He) as (S1 & _ & S3 & S4 & S5).
    set (w1 := setItem a item1 w) in *.
    unfold unmark. rewrite S1. simpl.
    set (item2 := setRun (Some (<[blockId info := false]> m)) (Some (Z.pred n)) (Some c1) item1).
    destruct (slot_setItem a item2 w1 _ S1) as (T1 & _ & T3 & T4 & T5).
    destruct (IH (setItem a item2 w1) _ item2 c1 (<[blockId info := false]> m) (Z.pred n)
                T1 eq_refl eq_refl eq_refl eq_refl Hnd)
      as (w' & item' & Hrun & Hslot & Hcount & Hmarks & Hchanges & Hcb & Hstore & Hlog & Hdbs).
    { intros info2 Hin2. rewrite lookup_insert_ne; [apply Hall; by right|].
      intros Heq. apply Hfresh. rewrite Heq. apply list_elem_of_fmap. eauto. }
    { lia. }
    exists w', item'. split; [exact Hrun|]. split; [exact Hslot|].
    split; [rewrite Hcount; f_equal; lia|]. split; [exact Hmarks|].
    split; [exact Hchanges|]. split; [exact Hcb|].
    split; [by rewrite Hstore, T5, S5|]. split; [by rewrite Hlog, T3, S3|].
    by rewrite Hdbs, T4, S4.
Qed.

Lemma commitChanges_store (c : Changes) (w w1 : World) :
  store w1 = store w -> (commitChanges c w1).1 = (commitChanges c w).1.
Proof.
  intros Hs. unfold commitChanges. rewrite Hs.
  by destruct (commitStaged (store w) (round c) (changed c) (staged c)) as [[s' body] delta].
Qed.

Lemma unmark_log (a : nat) (b : string) (w : World) : log (unmark a b w) = log w.
Proof.
  unfold unmark. destruct (evals w !! a) as [e|] eqn:He; [|done].
  destruct (currentEvaluation e); [|done].
  by destruct (slot_setItem a (setRun (insert b false <$> waitingFor q) (waitingCount q)
                                 (changes q) q) w e He) as (_ & _ & L & _).
Qed.


End RemoteRounds.

Section Draining.
Context `{Collaborators}.

(** ** What a drain leaves of its own evaluation *)

Lemma afterCallback_fields (cb : option Callback) (x : option QueuedEvaluation)
    (e : Evaluation) :
  evaluationQueue (afterCallback cb e) = evaluationQueue e
  /\ ticks (afterCallback cb (setCurrent x e)) = ticks (afterCallback cb e)
  /\ queued (afterCallback cb (setCurrent x e)) = queued (afterCallback cb e)
  /\ evaluationQueue (afterCallback cb (setCurrent x e)) = evaluationQueue e.
Proof.
  unfold afterCallback. destruct cb as [[k|inner]|]; try done.
  simpl. by case_bool_decide.
Qed.

Lemma settle_self (a : nat) (e e0 : Evaluation) (item : QueuedEvaluation) (c : Changes)
    (w : World) :
  evals w !! a = Some e0 ->
  evals (settle a e item c w) !! a
  = Some (setCurrent None (afterCallback (callback item) e0)).
Proof.
  intros He0. unfold settle.
  set (w1 := if MAX_ROUNDS <=? round c
             then error a "Fixpoint Error" "Evaluation failed to fixpoint" w else w).
  assert (E1 : evals w1 = evals w).
  { subst w1. destruct (MAX_ROUNDS <=? round c); [|done].
    unfold error. rewrite He0. by destruct (errorReporter e0). }
  destruct (notifyDatabases_spec a c (databases e) w1) as (_ & _ & E2 & _).
  set (w2 := notifyDatabases a c (databases e) w1) in *.
  assert (He2 : evals w2 !! a = Some e0) by (by rewrite E2, E1).
  assert (He3 : evals (match callback item with
                       | Some cb => invoke a cb c w2
                       | None => w2
                       end) !! a = Some (afterCallback (callback item) e0)).
  { unfold afterCallback. destruct (callback item) as [[k|inner]|]; simpl; [done| |done].
    unfold finished. rewrite He2.
    destruct inner; simpl; by rewrite lookup_insert_eq. }
  unfold clearCurrent. rewrite He3. simpl. by rewrite lookup_insert_eq.
Qed.

(** The evaluation of the driver after a run: its queue is the same; when
    the item is still in the slot nothing was scheduled; when the slot is
    empty the callback of the item was called. *)
Lemma fixpointRound_self :
  forall (fuel a : nat) (bs : list Block) (w : World) (e : Evaluation)
         (item : QueuedEvaluation) (o : Outcome),
    evals w !! a = Some e ->
    currentEvaluation e = Some item ->
    _fixpointRound fuel a bs w = Some o ->
    exists e',
      evals (worldOf o) !! a = Some e'
      /\ evaluationQueue e' = evaluationQueue e
      /\ match currentEvaluation e' with
         | Some item' =>
             callback item' = callback item /\ ticks e' = ticks e /\ queued e' = queued e
         | None =>
             ticks e' = ticks (afterCallback (callback item) e)
             /\ queued e' = queued (afterCallback (callback item) e)
         end.
Proof.
  induction fuel as [|fuel IH]; intros a bs w e item o He Hitem Hrun; [discriminate|].
  simpl in Hrun. rewrite He, Hitem in Hrun.
  destruct (changes item) as [c|] eqn:Hc.
  2:{ inversion Hrun. simpl.
      destruct (slot_setItem a (setRun (waitingFor item) (Some 0) None item) w e He)
        as (S1 & _). rewrite S1. eexists. split; [done|]. done. }
  destruct (changed c && (round c <? MAX_ROUNDS)).
  - destruct (runBlocks _ bs (waitingFor item) (Some 0) (nextRound c)) as [ok [[wf wc] c2]].
    set (w1 := emit (NextRound a (round c + 1)) w) in *.
    assert (He1 : evals w1 !! a = Some e) by done.
    destruct ok; [case_bool_decide as Hzero|].
    + destruct (commitChanges_spec c2 w1) as (_ & E3 & _ & _).
      destruct (commitChanges c2 w1) as [[c3 delta] w2]. simpl in E3.
      set (item3 := setRun wf wc (Some c3) item) in *.
      assert (He2 : evals w2 !! a = Some e) by (by rewrite E3).
      destruct (slot_setItem a item3 w2 e He2) as (S1 & _).
      destruct (IH a _ (emit (Committed a delta) (setItem a item3 w2))
                  (setCurrent (Some item3) e) item3 o S1 eq_refl Hrun)
        as (e' & E & Q & Hm).
      exists e'. split; [done|]. split; [done|].
      destruct (currentEvaluation e'); [done|].
      destruct (afterCallback_fields (callback item) (Some item3) e) as (_ & F2 & F3 & _).
      simpl in Hm. rewrite F2, F3 in Hm. done.
    + inversion Hrun. simpl.
      destruct (slot_setItem a (setRun wf wc (Some c2) item) w1 e He1) as (S1 & _).
      rewrite S1. eexists. split; [done|]. done.
    + inversion Hrun. simpl.
      destruct (slot_setItem a (setRun wf wc (Some c2) item) w1 e He1) as (S1 & _).
      rewrite S1. eexists. split; [done|]. done.
  - inversion Hrun. simpl.
    set (item0 := setRun (waitingFor item) (Some 0) (Some c) item).
    destruct (slot_setItem a item0 w e He) as (S1 & _).
    rewrite (settle_self a e _ item c _ S1).
    eexists. split; [done|]. simpl.
    destruct (afterCallback_fields (callback item) (Some item0) e) as (_ & F2 & F3 & F4).
    done.
Qed.

(** X12: a drain that runs its item to the end keeps the queue going. When
    the drain callback finds an item (a Commit or an Actions item) at the
    head of the queue and returns, the queue of the evaluation is the rest
    of it. With the slot empty (the fixpoint is over) and items left, one
    more drain callback is pending than before less the one that ran; with
    no item left [queued] is off. With the item parked in the slot no
    drain was scheduled. *)
Theorem drain_reschedules (fuel a : nat) (w w' : World) (e : Evaluation)
    (head : QueuedEvaluation) (rest : list QueuedEvaluation) :
  evals w !! a = Some e ->
  evaluationQueue e = head :: rest ->
  q_type head <> Qchanges ->
  tick fuel a w = Some (Returned w') ->
  exists e',
    evals w' !! a = Some e'
    /\ evaluationQueue e' = rest
    /\ match currentEvaluation e' with
       | Some _ => ticks e' = pred (ticks e)
       | None =>
           ticks e' = (pred (ticks e) + (if bool_decide (rest = []) then 0 else 1))%nat
           /\ (rest = [] -> queued e' = false)
       end.
Proof.
  intros He Hq Hty Hrun. unfold tick in Hrun. rewrite He, Hq in Hrun.
  set (e1 := setQueue rest (pred (ticks e)) e) in *.
  set (w1 := emit (Started a head) (setEval a e1 w)) in *.
  assert (He1 : evals w1 !! a = Some e1) by (subst w1; simpl; by rewrite lookup_insert_eq).
  assert (Hfix : forall c bs w0,
            evals w0 !! a = Some e1 ->
            fixpoint fuel a c bs (Some (CbFinished (userCallback head))) w0 = Some (Returned w') ->
            exists e',
              evals w' !! a = Some e' /\ evaluationQueue e' = rest
              /\ match currentEvaluation e' with
                 | Some _ => ticks e' = pred (ticks e)
                 | None =>
                     ticks e' = (pred (ticks e) + (if bool_decide (rest = []) then 0 else 1))%nat
                     /\ (rest = [] -> queued e' = false)
                 end).
  { intros c bs w0 He0 Hf. unfold fixpoint in Hf. rewrite He0 in Hf.
    set (item := mkQueued Qchanges None None _ _ None None) in Hf.
    assert (Hs : evals (setEval a (setCurrent (Some item) e1) w0) !! a
                 = Some (setCurrent (Some item) e1))
      by (simpl; by rewrite lookup_insert_eq).
    destruct (fixpointRound_self fuel a bs _ (setCurrent (Some item) e1) item _
                Hs eq_refl Hf)
      as (e' & E & Q & Hm).
    exists e'. split; [done|]. split; [done|].
    destruct (currentEvaluation e'); [by destruct Hm as (_ & T & _)|].
    destruct Hm as [T U]. simpl in T, U. subst e1. simpl in T, U.
    case_bool_decide as Hrest; simpl in T, U.
    - split; [lia|done].
    - split; [lia|done]. }
  destruct (q_type head); [| |done].
  - destruct (q_commit head) as [commits|]; [|discriminate]. by eapply Hfix.
  - destruct (actions head) as [acts|]; [|discriminate].
    destruct (changes head) as [c|]; [|discriminate].
    destruct (stagingOf_acted a acts w1) as (A1 & _).
    set (w2 := foldl (fun w0 _ => emit (Acted a) w0) w1 acts) in *.
    destruct (commitChanges_spec (stageActions (multiIndex e1, store w1) acts c) w2)
      as (_ & E3 & _).
    destruct (commitChanges _ w2) as [[c2 committed] w3]. simpl in E3.
    eapply Hfix; [|exact Hrun]. simpl. by rewrite E3, A1.
Qed.

End Draining.

Section Unregistering.
Context `{Collaborators}.

(** X13: [unregisterDatabase] is not undone by its throw. For a registered
    name whose database does not list the evaluation (as after the same
    database was registered under two names and one of them was
    unregistered), [db.unregister(this)] throws when the name is already
    out of [nameToDatabase] and of the multi-index, the database out of
    [databaseNames], and the list of databases spliced; the databases
    themselves are untouched. *)
Theorem unregisterDatabase_throws_late (w : World) (a d : nat) (name : string)
    (e : Evaluation) (db : Database) :
  evals w !! a = Some e ->
  nameToDatabase e !! name = Some d ->
  dbs w !! d = Some db ->
  a ∉ evaluations db ->
  exists err w' e',
    unregisterDatabase a name w = Thrown err w'
    /\ evals w' !! a = Some e'
    /\ getDatabase e' name = None
    /\ multiIndex e' !! name = None
    /\ databaseToName e' db = None
    /\ databases e' = spliceOut d (databases e)
    /\ dbs w' = dbs w.
Proof.
  intros He Hname Hd Hout. unfold unregisterDatabase. rewrite He, Hname, Hd.
  assert (unregister a db = None) as ->.
  { unfold unregister. by rewrite (proj2 (indexOf_None a (evaluations db)) Hout). }
  eexists _, _, _. split; [reflexivity|]. simpl. rewrite lookup_insert_eq.
  split; [reflexivity|]. unfold getDatabase, databaseToName, unregisterIndex. simpl.
  rewrite !lookup_delete_eq. done.
Qed.

End Unregistering.

Section Loading.
Context `{Persistence}.

(** ** load *)

Lemma loadFacts_round (name : string) (facts : list (list Value)) (c : Changes) :
  round (loadFacts name facts c) = round c.
Proof.
  unfold loadFacts. revert c. induction facts as [|fact facts IH]; intros c; [done|].
  simpl. by rewrite IH.
Qed.

Lemma loadLoop_spec (e : Evaluation) (dump : list (string * list (list Value))) :
  forall c : Changes,
    (Forall (fun p => is_Some (getDatabase e p.1)) dump ->
     loadLoop e dump c
     = Some (foldl (fun c' p => loadFacts p.1 p.2 c') c dump))
    /\ (Exists (fun p => getDatabase e p.1 = None) dump -> loadLoop e dump c = None).
Proof.
  induction dump as [|[name facts] rest IH]; intros c.
  - split; [done|]. intros Hex. inversion Hex.
  - simpl. split.
    + intros Hall. apply Forall_cons in Hall as [[d Hd] Hall]. simpl in Hd.
      rewrite Hd. by apply IH.
    + intros Hex. destruct (getDatabase e name) eqn:Hd; [|done].
      apply Exists_cons in Hex as [Hex|Hex]; [simpl in Hex; congruence|].
      by apply IH.
Qed.

Lemma foldl_loadFacts_round (dump : list (string * list (list Value))) (c : Changes) :
  round (foldl (fun c' p => loadFacts p.1 p.2 c') c dump) = round c.
Proof.
  revert c. induction dump as [|p rest IH]; intros c; [done|].
  simpl. by rewrite IH, loadFacts_round.
Qed.


End Loading.

(** * The theorems at work on the small instance *)

Lemma register_idempotent_witness :
  let db := Demo.mainDatabase [] false in
  register 1 db = db
  /\ NoDup (evaluations (register 1 db))
  /\ (length (enqueuedOf 1 (log (onFixpoint 0 db 1 newChanges (Demo.world1 [] false)))) <= 1)%nat.
Proof.
  intros db.
  destruct (register_idempotent db 1%nat) as (H1 & _ & H3 & _ & H5).
  assert (Hin : 1%nat ∈ evaluations db) by (simpl; apply list_elem_of_singleton; reflexivity).
  assert (Hnd : NoDup (evaluations db)) by (simpl; apply NoDup_singleton).
  split; [exact (H1 Hin)|]. split; [exact (H3 Hnd)|].
  exact (H5 Hnd 0%nat 1%nat newChanges (Demo.world1 [] false) 1%nat Demo.mainEvaluation eq_refl).
Defined.

Lemma onFixpoint_peers_witness :
  evals (onFixpoint 0 Demo.sharedDatabase 1 newChanges Demo.world2) = evals Demo.world2
  /\ exists pe',
       evals (onFixpoint 0 Demo.sharedDatabase 1 Demo.committed1 Demo.world2) !! 2%nat = Some pe'
       /\ evaluationQueue pe' = [armed (commitItem Demo.delta1)].
Proof.
  split.
  - destruct (onFixpoint_peers 0 Demo.sharedDatabase 1 newChanges Demo.world2
                Demo.mainEvaluation eq_refl) as [Hempty _].
    exact (proj1 (Hempty eq_refl)).
  - destruct (onFixpoint_peers 0 Demo.sharedDatabase 1 Demo.committed1 Demo.world2
                Demo.mainEvaluation eq_refl) as [_ Hfull].
    destruct (Hfull ltac:(discriminate) 2%nat Demo.mainEvaluation eq_refl)
      as (pe' & H1 & H2 & _).
    exists pe'. split; [exact H1|exact H2].
Defined.

Lemma registerDatabase_duplicate_witness :
  exists msg,
    registerDatabase 1 "main" 0 (Demo.world1 [] false)
    = Thrown (JsError msg) (Demo.world1 [] false).
Proof.
  apply (registerDatabase_duplicate (Demo.world1 [] false) 1 0 "main"
           Demo.mainEvaluation (Demo.mainDatabase [] false)).
  - reflexivity.
  - reflexivity.
  - exists 0%nat. reflexivity.
Defined.



(** The program that never comes to rest: 300 rounds, then the report,
    and the slot is empty. *)
Example diverging_program :
  (fun o : Outcome => (roundsOf 1 (log (worldOf o)),
             List.filter isDivergenceReport (log (worldOf o)),
             slot 1 (worldOf o)))
    <$> _fixpointRound 301 1 [Demo.eager "b1" false]
          (Demo.running [Demo.eager "b1" false] Demo.seed None None)
  = Some (roundsFrom 0 300,
          [ConsoleError "Fixpoint Error:" "Evaluation failed to fixpoint"],
          None).
Proof. vm_compute. reflexivity. Qed.

(** One derivation: the fixpoint is reached in round 2, and no report. *)
Example trivial_derivation :
  (fun o : Outcome => (roundsOf 1 (log (worldOf o)), store (worldOf o),
             List.filter isDivergenceReport (log (worldOf o))))
    <$> _fixpointRound 301 1 [Demo.once "b1" false]
          (Demo.running [Demo.once "b1" false] Demo.seed None None)
  = Some ([1; 2],
          [(Demo.Str "e1", Demo.Str "tag", Demo.Str "person");
           (Demo.Str "e1", Demo.Str "kind", Demo.Str "human")],
          []).
Proof. vm_compute. reflexivity. Qed.



Lemma tick_actions_witness :
  exists (seed : Changes) (bs : list Block) (w4 : World),
    tick 400 1 (executeActions 1 [Demo.addPerson] newChanges (Some 7%nat)
                  (Demo.world1 [Demo.once "b1" false] false))
    = fixpoint 400 1 seed bs (Some (CbFinished (Some 7%nat))) w4
    /\ stagingOf 1 (log w4) = [None; Some Demo.delta0].
Proof.
  pose proof (tick_actions 400 1
                (executeActions 1 [Demo.addPerson] newChanges (Some 7%nat)
                   (Demo.world1 [Demo.once "b1" false] false))
                (queue Demo.itemA Demo.mainEvaluation)
                (armed Demo.itemA) [] [Demo.addPerson] newChanges
                eq_refl eq_refl eq_refl eq_refl eq_refl) as [Hrun Hlog].
  eexists _, _, _. split; [exact Hrun|]. exact Hlog.
Defined.

(** C5, as the code runs it. An evaluation whose database holds one remote
    block, and [fixpoint()] called on it: the round stops with a
    [TypeError] at [evaluation.waitingFor[block.id] = true], because the
    item that [fixpoint] puts in the slot has no [waitingFor]; the
    evaluation is not parked with [waitingCount = 1], nothing is committed.
    And from a slot that does have the map, parked on "b1": the delivery
    for "b1" is merged and committed and the next round, round 2, awaits
    "b1" again, but the mark is then overwritten with [false] while
    [waitingCount] is 1, so that the next delivery for "b1" is refused. *)
Theorem remote_block_round_fails :
  (fun o : Outcome => (thrown o, store (worldOf o), stagingOf 1 (log (worldOf o)),
             option_map waitingFor (slot 1 (worldOf o)),
             option_map waitingCount (slot 1 (worldOf o))))
    <$> fixpointAll 400 1 (Demo.world1 [Demo.once "b1" true] false)
  = Some (Some (TypeError "Cannot set property of undefined"),
          ([] : list Demo.Triple), ([] : list (option (list Demo.JsVal))),
          Some (None : option (gmap string bool)), Some (Some 0))
  /\ (fun o : Outcome => (thrown o, roundsOf 1 (log (worldOf o)),
                option_map waitingCount (slot 1 (worldOf o)),
                markOf 1 "b1" (worldOf o)))
       <$> onRemoteChanges 400 1 Demo.delivery Demo.parked
     = Some (None, [2], Some (Some 1), Some false)
  /\ thrown <$> andThen (onRemoteChanges 400 1 Demo.delivery Demo.parked)
                   (onRemoteChanges 400 1 Demo.delivery)
     = Some (Some (JsError "Got a remote block execution for a block we're not waiting for")).
Proof.
  split; [|split]; vm_compute; reflexivity.
Qed.


(** * More of the theorems at work *)

Lemma singleton_world (e : Evaluation) (P : Evaluation -> Prop) (m : gmap nat Evaluation) :
  m = {[1%nat := e]} -> P e -> forall p pe, m !! p = Some pe -> P pe.
Proof.
  intros -> HP p pe Hp. apply lookup_singleton_Some in Hp as [_ <-]. exact HP.
Qed.

Lemma unregister_register_witness :
  unregister 2 (register 2 (Demo.mainDatabase [] false)) = Some (Demo.mainDatabase [] false)
  /\ unregister 2 (Demo.mainDatabase [] false) = None
  /\ (1%nat ∉ evaluations (mkDatabase "db|1" [] [] false)).
Proof.
  destruct (unregister_register (Demo.mainDatabase [] false) 2) as (H1 & H2 & _).
  destruct (unregister_register (Demo.mainDatabase [] false) 1) as (_ & _ & H3).
  assert (Hout : 2%nat ∉ evaluations (Demo.mainDatabase [] false)).
  { simpl. intros Hin. apply list_elem_of_singleton in Hin. discriminate. }
  split; [exact (H2 Hout)|]. split; [exact (proj2 H1 Hout)|].
  exact (proj1 (H3 (NoDup_singleton 1%nat) (mkDatabase "db|1" [] [] false) eq_refl)).
Defined.



Lemma close_unregisters_witness :
  exists w',
    close 1 (Demo.world1 [] false) = Returned w'
    /\ (exists err, close 1 w' = Thrown err w').
Proof.
  destruct (close_unregisters (Demo.world1 [] false) 1 Demo.mainEvaluation)
    as (w' & Hrun & _ & _ & _ & _ & _ & Hagain).
  - reflexivity.
  - simpl. apply NoDup_singleton.
  - intros d Hd. simpl in Hd. apply list_elem_of_singleton in Hd. subst d.
    exists (Demo.mainDatabase [] false). split; [reflexivity|].
    split; [simpl; apply list_elem_of_singleton; reflexivity|simpl; apply NoDup_singleton].
  - exists w'. split; [exact Hrun|]. apply Hagain. discriminate.
Defined.

Lemma blocksFromCommit_sublist_witness :
  exists d db,
    d ∈ databases Demo.mainEvaluation
    /\ dbs (Demo.world1 [Demo.once "b1" false] false) !! d = Some db
    /\ nonExecuting db = false.
Proof.
  destruct (blocksFromCommit_sublist Demo.mainEvaluation
              (Demo.world1 [Demo.once "b1" false] false) Demo.delta1) as (_ & _ & Hfrom & _).
  destruct (Hfrom (Demo.once "b1" false)) as (d & db & H1 & H2 & H3 & _).
  - assert (blocksFromCommit Demo.mainEvaluation
              (Demo.world1 [Demo.once "b1" false] false) Demo.delta1
            = [Demo.once "b1" false]) as -> by reflexivity.
    apply list_elem_of_singleton. reflexivity.
  - exists d, db. split; [exact H1|]. split; [exact H2|exact H3].
Defined.

Lemma starts_in_queue_order_witness :
  fifo (queueAt 1 Demo.itemA (Demo.world1 [] false)).
Proof.
  apply (starts_in_queue_order (Demo.world1 [] false)).
  intros a e. apply (singleton_world Demo.mainEvaluation
                       (fun e => enqueuedOf a [] = startedOf a [] ++ evaluationQueue e));
    reflexivity.
Defined.

Lemma queued_never_set_witness :
  ticks (queue Demo.itemB (queue Demo.itemA Demo.mainEvaluation)) = 2%nat
  /\ forall p pe, evals Cases.queuedOnce !! p = Some pe -> queued pe = false.
Proof.
  assert (Hw : forall p pe, evals (Demo.world1 [Demo.once "b1" false] false) !! p = Some pe ->
                             queued pe = false)
    by (apply (singleton_world Demo.mainEvaluation (fun e => queued e = false)); reflexivity).
  destruct (queued_never_set (Demo.world1 [Demo.once "b1" false] false) Hw)
    as (_ & Hq & _).
  split; [reflexivity|]. intros p pe. apply (Hq 1%nat (actionsItem [Demo.addPerson] newChanges (Some 7%nat))).
Defined.

Lemma tables_kept_witness :
  lifts sameTables (Demo.world1 [] false)
    (setEval 1 (setQueue [] 0 Demo.mainEvaluation) (Demo.world1 [] false)).
Proof.
  destruct (tables_kept (Demo.world1 [] false)) as (_ & Htick & _).
  apply (Htick 1%nat 1%nat (Returned (setEval 1 (setQueue [] 0 Demo.mainEvaluation)
                                        (Demo.world1 [] false)))).
  reflexivity.
Defined.

Lemma local_fixpoint_completes_witness :
  exists w',
    fixpoint 301 1 Demo.seed [Demo.once "b1" false] (Some (CbUser 7))
      (Demo.world1 [Demo.once "b1" false] false) = Some (Returned w')
    /\ slot 1 w' = None.
Proof.
  destruct (local_fixpoint_completes 301 1 Demo.seed [Demo.once "b1" false] (Some (CbUser 7))
              (Demo.world1 [Demo.once "b1" false] false) Demo.mainEvaluation)
    as (w' & k & cfin & sfx & Hrun & Hslot & _).
  - reflexivity.
  - assert (getAllBlocks Demo.mainEvaluation (Demo.world1 [Demo.once "b1" false] false)
            = [Demo.once "b1" false]) as -> by reflexivity.
    repeat constructor.
  - repeat constructor.
  - unfold MAX_ROUNDS. simpl. lia.
  - exists w'. split; [exact Hrun|exact Hslot].
Defined.

Lemma fixpoint_fans_out_witness :
  exists w' cfin pe',
    fixpoint 301 1 Demo.committed1 [] None Demo.world2 = Some (Returned w')
    /\ evals w' !! 2%nat = Some pe'
    /\ evaluationQueue pe'
       = fanOutOver (databaseNames Demo.mainEvaluation) (dbs Demo.world2) cfin 2 [0%nat].
Proof.
  destruct (fixpoint_fans_out 301 1 Demo.committed1 [] None Demo.world2 Demo.mainEvaluation
              2 Demo.mainEvaluation)
    as (w' & k & cfin & pe' & sfx & Hrun & _ & _ & _ & He & Hq).
  - reflexivity.
  - assert (getAllBlocks Demo.mainEvaluation Demo.world2 = []) as -> by reflexivity.
    constructor.
  - constructor.
  - unfold MAX_ROUNDS. simpl. lia.
  - discriminate.
  - reflexivity.
  - exists w', cfin, pe'. split; [exact Hrun|]. split; [exact He|exact Hq].
Defined.

Lemma round_parks_witness :
  exists w' item',
    _fixpointRound 1 1 [Demo.once "b1" true]
      (Demo.running [Demo.once "b1" true] Demo.seed (Some ∅) None) = Some (Returned w')
    /\ slot 1 w' = Some item'
    /\ waitingCount item' = Some 1.
Proof.
  destruct (round_parks 0 1 [Demo.once "b1" true]
              (Demo.running [Demo.once "b1" true] Demo.seed (Some ∅) None)
              (setCurrent (Some (Demo.runningItem Demo.seed (Some ∅) None)) Demo.mainEvaluation)
              (Demo.runningItem Demo.seed (Some ∅) None) Demo.seed ∅)
    as (w' & item' & c' & Hrun & Hslot & Hcount & _).
  - reflexivity.
  - reflexivity.
  - reflexivity.
  - reflexivity.
  - reflexivity.
  - unfold MAX_ROUNDS. simpl. lia.
  - assert (remoteOnes [Demo.once "b1" true] = [Demo.once "b1" true]) as -> by reflexivity.
    discriminate.
  - exists w', item'. split; [exact Hrun|]. split; [exact Hslot|exact Hcount].
Defined.

Lemma deliveries_count_down_witness :
  exists w' item',
    deliverAll 5 1 [Demo.delivery] Cases.parked2 = Some (Returned w')
    /\ slot 1 w' = Some item'
    /\ waitingCount item' = Some (2 - 1).
Proof.
  destruct (deliveries_count_down 5 1 [Demo.delivery] Cases.parked2
              (setCurrent (Some Cases.parkedTwice) Demo.mainEvaluation)
              Cases.parkedTwice Cases.quiet1
              {["b1" := true; "b2" := true]} 2)
    as (w' & item' & Hrun & Hslot & Hcount & _).
  - reflexivity.
  - reflexivity.
  - reflexivity.
  - reflexivity.
  - reflexivity.
  - simpl. apply NoDup_singleton.
  - intros info Hin. apply list_elem_of_singleton in Hin. subst info. reflexivity.
  - simpl. lia.
  - exists w', item'. split; [exact Hrun|]. split; [exact Hslot|exact Hcount].
Defined.


Lemma drain_reschedules_witness :
  exists e', evals Cases.drainedB !! 1%nat = Some e' /\ evaluationQueue e' = [].
Proof.
  destruct (drain_reschedules 5 1 Cases.queuedB Cases.drainedB
              (queue Demo.itemB Demo.mainEvaluation) (armed Demo.itemB) [])
    as (e' & He & Hq & _).
  - reflexivity.
  - reflexivity.
  - discriminate.
  - assert (Hr : Cases.returned (tick 5 1 Cases.queuedB) = true) by (vm_compute; reflexivity).
    unfold Cases.drainedB.
    destruct (tick 5 1 Cases.queuedB) as [[w1|err w1]|];
      [reflexivity|discriminate Hr|discriminate Hr].
  - exists e'. split; [exact He|exact Hq].
Defined.

Lemma unregisterDatabase_throws_late_witness :
  exists err w' e',
    unregisterDatabase 1 "main" Cases.unlisted = Thrown err w'
    /\ evals w' !! 1%nat = Some e'
    /\ getDatabase e' "main" = None.
Proof.
  destruct (unregisterDatabase_throws_late Cases.unlisted 1 0 "main" Demo.mainEvaluation
              (mkDatabase "db|1" [] [] false))
    as (err & w' & e' & Hrun & He & Hget & _).
  - reflexivity.
  - reflexivity.
  - reflexivity.
  - simpl. intros Hin. inversion Hin.
  - exists err, w', e'. split; [exact Hrun|]. split; [exact He|exact Hget].
Defined.

